(** * Airline PII redactor: shallow embedding of [airline_pii_redactor.py]

    The development follows the Python module top to bottom: Python strings
    as sequences of code points, the regular expressions of the module run by
    a small backtracking matcher, the recognizers, the validators, the
    filtering loop of [redact] and the output normalizer.  The external
    collaborators (Presidio analyzer and anonymizer, HanLP, dateutil, the
    clock, the interpreter's Unicode tables) are fields of an environment
    record; calls that may raise return a [result]. *)

From Stdlib Require Import String Ascii.
From Stdlib Require Import List Arith NArith ZArith QArith Bool Lia.
Import ListNotations.
Close Scope Q_scope.

Set Implicit Arguments.

(** ** Python strings *)

(** A Python [str] is a sequence of Unicode code points. *)
Definition char := N.
Definition str := list char.

(** ASCII literals of the source, as code points. *)
Definition codes (s : string) : str :=
  map N_of_ascii (list_ascii_of_string s).

Definition in_range (lo hi c : N) : bool := ((lo <=? c) && (c <=? hi))%N.

Definition str_eqb (a b : str) : bool :=
  if list_eq_dec N.eq_dec a b then true else false.

(** [w in {...}] for a set of string literals. *)
Definition in_words (w : str) (set : list string) : bool :=
  existsb (fun k => str_eqb w (codes k)) set.

(** Regex classes [[A-Z]], [[a-z]], [[0-9]] and [[A-Za-z0-9]]: plain code
    point ranges, whatever the pattern flags. *)
Definition re_AZ (c : char) : bool := in_range 65 90 c.
Definition re_az (c : char) : bool := in_range 97 122 c.
Definition re_09 (c : char) : bool := in_range 48 57 c.
Definition re_alnum (c : char) : bool := re_AZ c || re_az c || re_09 c.

(** [str.isspace] on one character, which is also what [\s] matches in a
    [str] pattern and what [str.strip()] and [str.split()] remove: the
    interpreter's fixed list of white space code points. *)
Definition isspace (c : char) : bool :=
  (in_range 9 13 c || in_range 28 32 c || (c =? 133) || (c =? 160)
   || (c =? 5760) || in_range 8192 8202 c || (c =? 8232) || (c =? 8233)
   || (c =? 8239) || (c =? 8287) || (c =? 12288))%N.

Definition SPACE : char := 32%N.
Definition LBRACKET : char := 91%N.
Definition RBRACKET : char := 93%N.

Fixpoint lstrip (s : str) : str :=
  match s with
  | [] => []
  | c :: r => if isspace c then lstrip r else s
  end.

(** Trailing white space: from the first position after which only white
    space follows, everything is dropped. *)
Fixpoint rstrip (s : str) : str :=
  match s with
  | [] => []
  | c :: r => if forallb isspace s then [] else c :: rstrip r
  end.

(** [s.strip()] *)
Definition strip (s : str) : str := rstrip (lstrip s).

(** The substitution of one space for every white space run, as a scan:
    the scanner is inside a run ([in_run]) or not, and a run is replaced by
    one space when it starts.  [collapse_spaces] below is proved to compute
    this. *)
Fixpoint sub_spaces (in_run : bool) (s : str) : str :=
  match s with
  | [] => []
  | c :: r =>
      if isspace c
      then (if in_run then sub_spaces true r else SPACE :: sub_spaces true r)
      else c :: sub_spaces false r
  end.

(** Length of the white space run [s] starts with. *)
Fixpoint run_len (s : str) : nat :=
  match s with
  | [] => 0
  | c :: r => if isspace c then S (run_len r) else 0
  end.

(** [s[i:j]] for offsets [0 <= i], [0 <= j]: Python clamps both to the
    length and returns the empty string when [j <= i]. *)
Definition slice (s : str) (i j : nat) : str := firstn (j - i) (skipn i s).

(** [k in s] on strings: [k] occurs as a contiguous substring. *)
Fixpoint starts_with (k s : str) : bool :=
  match k, s with
  | [], _ => true
  | _ :: _, [] => false
  | a :: k', b :: s' => (a =? b)%N && starts_with k' s'
  end.

Fixpoint contains (k s : str) : bool :=
  starts_with k s ||
  match s with
  | [] => false
  | _ :: r => contains k r
  end.

(** [s.split()]: the maximal runs of characters that are not white space. *)
Fixpoint split_ws_aux (cur : str) (s : str) : list str :=
  match s with
  | [] => match cur with [] => [] | _ => [rev cur] end
  | c :: r =>
      if isspace c
      then match cur with
           | [] => split_ws_aux [] r
           | _ => rev cur :: split_ws_aux [] r
           end
      else split_ws_aux (c :: cur) r
  end.

Definition split_ws (s : str) : list str := split_ws_aux [] s.

(** ** Exceptions *)

(** What a call can raise, as far as the handlers of the module tell them
    apart: [except ValueError], and [except Exception] or the bare
    [except:], which catch every exception a call raises (interrupts and
    interpreter exit are not calls' exceptions and stay outside). *)
Inductive exn :=
| ValueError
| OtherException (name : string).  (* any other subclass of Exception *)

Inductive result (A : Type) :=
| Ok (a : A)
| Raise (e : exn).
Arguments Ok {A} a.
Arguments Raise {A} e.

Definition bind {A B} (c : result A) (f : A -> result B) : result B :=
  match c with
  | Ok a => f a
  | Raise e => Raise e
  end.

Notation "x <- c ;; k" := (bind c (fun x => k))
  (at level 61, c at next level, right associativity).

Definition is_ValueError (e : exn) : bool :=
  match e with ValueError => true | _ => false end.

Definition is_Exception (e : exn) : bool := true.

(** [try: c  except <class>: h] where [catches] says which exceptions the
    class covers. *)
Definition try_except {A} (catches : exn -> bool) (c : result A)
    (h : exn -> result A) : result A :=
  match c with
  | Ok a => Ok a
  | Raise e => if catches e then h e else Raise e
  end.

(** ** The interpreter's Unicode tables *)

(** The [str] methods and regex classes whose answer comes from the Unicode
    database of the interpreter.  Every definition below takes them as they
    are; [ascii_tables] is the instance that agrees with the interpreter on
    ASCII text. *)
Record Unicode := {
  lower : str -> str;               (* s.lower() *)
  upper : str -> str;               (* s.upper() *)
  c_isalpha : char -> bool;         (* ch.isalpha() *)
  c_isdigit : char -> bool;         (* ch.isdigit() *)
  c_islower : char -> bool;         (* ch.islower() *)
  c_isupper : char -> bool;         (* ch.isupper() *)
  c_istitle : char -> bool;         (* ch.istitle() *)
  re_word : char -> bool;           (* \w in a str pattern *)
  re_decimal : char -> option Z     (* \d in a str pattern, with int(ch) *)
}.

Section StrMethods.
Variable U : Unicode.

(** [s.isalpha()] *)
Definition isalpha (s : str) : bool :=
  match s with [] => false | _ => forallb (c_isalpha U) s end.

(** [s.isdigit()] *)
Definition isdigit (s : str) : bool :=
  match s with [] => false | _ => forallb (c_isdigit U) s end.

(** [s.isupper()]: no lowercase or titlecase character and at least one
    uppercase one; a one-character string is tested directly. *)
Fixpoint isupper_loop (cased : bool) (s : str) : bool :=
  match s with
  | [] => cased
  | ch :: r =>
      if c_islower U ch || c_istitle U ch then false
      else isupper_loop (cased || c_isupper U ch) r
  end.

Definition isupper (s : str) : bool :=
  match s with
  | [ch] => c_isupper U ch
  | _ => isupper_loop false s
  end.

End StrMethods.

Definition ascii_lower_char (c : char) : char :=
  if re_AZ c then (c + 32)%N else c.
Definition ascii_upper_char (c : char) : char :=
  if re_az c then (c - 32)%N else c.

Definition ascii_tables : Unicode := {|
  lower := map ascii_lower_char;
  upper := map ascii_upper_char;
  c_isalpha := fun c => re_AZ c || re_az c;
  c_isdigit := re_09;
  c_islower := re_az;
  c_isupper := re_AZ;
  c_istitle := fun _ => false;
  re_word := fun c => re_alnum c || (c =? 95)%N;
  re_decimal := fun c => if re_09 c then Some (Z.of_N c - 48)%Z else None
|}.

(** ** Regular expressions *)

(** The constructs the patterns of the module use.  Repetition is only ever
    applied to a character class there. *)
Inductive regex :=
| Chr (p : char -> bool)                           (* one character of a class *)
| Eps                                              (* the empty pattern *)
| Seq (a b : regex)
| Alt (a b : regex)                                (* a|b, a tried first *)
| Rep (p : char -> bool) (lo : nat) (hi : option nat)  (* greedy p{lo,hi} *)
| Group (i : nat) (a : regex)                      (* capturing group i *)
| WordBoundary (word : char -> bool)               (* \b, word = \w *)
| NotAfter (p : char -> bool)                      (* (?<!p) *)
| NotBefore (p : char -> bool).                    (* (?!p) *)

(** The matcher's position: offset, the character before it, the rest of
    the text, and the groups captured so far (latest first). *)
Record mstate := {
  m_pos : nat;
  m_prev : option char;
  m_rest : str;
  m_groups : list (nat * (nat * nat))
}.

Definition advance (st : mstate) (c : char) (rest : str) : mstate :=
  {| m_pos := S (m_pos st); m_prev := Some c; m_rest := rest;
     m_groups := m_groups st |}.

Definition capture (i : nat) (from : nat) (st : mstate) : mstate :=
  {| m_pos := m_pos st; m_prev := m_prev st; m_rest := m_rest st;
     m_groups := (i, (from, m_pos st)) :: m_groups st |}.

Definition opt_test (p : char -> bool) (c : option char) : bool :=
  match c with Some c => p c | None => false end.

(** Greedy [p{lo,hi}] followed by the continuation [k]: take one more
    character when allowed and come back to stopping here if the rest fails. *)
Fixpoint rep_match (p : char -> bool) (lo : nat) (hi : option nat)
    (st : mstate) (s : str) (k : mstate -> option mstate) {struct s}
    : option mstate :=
  let stop := match lo with O => k st | S _ => None end in
  match s with
  | [] => stop
  | c :: s' =>
      if p c && match hi with Some O => false | _ => true end
      then match rep_match p (pred lo) (option_map pred hi) (advance st c s') s' k with
           | Some r => Some r
           | None => stop
           end
      else stop
  end.

(** Backtracking match of [r] at [st], then [k]. *)
Fixpoint rmatch (r : regex) (st : mstate) (k : mstate -> option mstate)
    : option mstate :=
  match r with
  | Chr p =>
      match m_rest st with
      | c :: s' => if p c then k (advance st c s') else None
      | [] => None
      end
  | Eps => k st
  | Seq a b => rmatch a st (fun st' => rmatch b st' k)
  | Alt a b =>
      match rmatch a st k with
      | Some r => Some r
      | None => rmatch b st k
      end
  | Rep p lo hi => rep_match p lo hi st (m_rest st) k
  | Group i a => rmatch a st (fun st' => k (capture i (m_pos st) st'))
  | WordBoundary word =>
      if xorb (opt_test word (m_prev st)) (opt_test word (hd_error (m_rest st)))
      then k st else None
  | NotAfter p => if opt_test p (m_prev st) then None else k st
  | NotBefore p => if opt_test p (hd_error (m_rest st)) then None else k st
  end.

(** A match object: [start()], [end()] and the group spans. *)
Record rematch := {
  mt_start : nat;
  mt_end : nat;
  mt_groups : list (nat * (nat * nat))
}.

Definition match_here (r : regex) (pos : nat) (prev : option char) (s : str)
    : option rematch :=
  match rmatch r {| m_pos := pos; m_prev := prev; m_rest := s; m_groups := [] |}
               (fun st => Some st) with
  | Some st => Some {| mt_start := pos; mt_end := m_pos st; mt_groups := m_groups st |}
  | None => None
  end.

(** [re.finditer(r, text)]: the leftmost match at or after each position,
    scanning on from the end of the previous match ([skip] counts the
    characters still inside it).  No pattern of the module matches the empty
    string. *)
Fixpoint finditer_from (r : regex) (pos : nat) (prev : option char)
    (skip : nat) (s : str) : list rematch :=
  match s with
  | [] => []
  | c :: s' =>
      match skip with
      | S n => finditer_from r (S pos) (Some c) n s'
      | O =>
          match match_here r pos prev s with
          | Some m => m :: finditer_from r (S pos) (Some c)
                             (pred (mt_end m - pos)) s'
          | None => finditer_from r (S pos) (Some c) 0 s'
          end
      end
  end.

Definition finditer (r : regex) (text : str) : list rematch :=
  finditer_from r 0 None 0 text.

(** [re.sub(r, repl, text)]: the text with every match of [finditer]
    replaced by what [repl] makes of it, the rest copied. *)
Fixpoint sub_from (r : regex) (repl : rematch -> str) (pos : nat)
    (prev : option char) (skip : nat) (s : str) : str :=
  match s with
  | [] => []
  | c :: s' =>
      match skip with
      | S n => sub_from r repl (S pos) (Some c) n s'
      | O =>
          match match_here r pos prev s with
          | Some m => repl m ++ sub_from r repl (S pos) (Some c)
                                         (pred (mt_end m - pos)) s'
          | None => c :: sub_from r repl (S pos) (Some c) 0 s'
          end
      end
  end.

Definition re_sub (r : regex) (repl : str -> rematch -> str) (text : str) : str :=
  sub_from r (repl text) 0 None 0 text.

(** [match.group()] and [match.group(i)] *)
Definition group0 (text : str) (m : rematch) : str :=
  slice text (mt_start m) (mt_end m).

Fixpoint group_span (i : nat) (gs : list (nat * (nat * nat))) : nat * nat :=
  match gs with
  | [] => (0, 0)
  | (j, sp) :: r => if Nat.eqb i j then sp else group_span i r
  end.

Definition group (text : str) (m : rematch) (i : nat) : str :=
  let sp := group_span i (mt_groups m) in slice text (fst sp) (snd sp).

(** Pattern fragments. *)
Definition lit (c : string) : regex :=
  fold_right (fun a r => Seq (Chr (N.eqb a)) r) Eps (codes c).
Definition lit_str (s : str) : regex :=
  fold_right (fun a r => Seq (Chr (N.eqb a)) r) Eps s.
Definition opt (r : regex) : regex := Alt r Eps.
Definition one_of (cs : string) (c : char) : bool :=
  existsb (N.eqb c) (codes cs).
Fixpoint seqs (rs : list regex) : regex :=
  match rs with
  | [] => Eps
  | [r] => r
  | r :: rest => Seq r (seqs rest)
  end.
(** [r1|r2|...], for a list that is not empty. *)
Fixpoint alts (rs : list regex) : regex :=
  match rs with
  | [] => Chr (fun _ => false)
  | [r] => r
  | r :: rest => Alt r (alts rest)
  end.
Definition times (p : char -> bool) (n : nat) : regex := Rep p n (Some n).
Definition plus (p : char -> bool) : regex := Rep p 1 None.

(** [re.sub(r'\s+', ' ', text)] *)
Definition collapse_spaces (text : str) : str :=
  re_sub (plus isspace) (fun _ _ => [SPACE]) text.

(** ** Recognizer results *)

(** Confidence scores are Python floats; they are only ever compared with
    each other and with the literal thresholds of the module, so they are
    kept as the rationals their decimal literals denote. *)
Record RecognizerResult := {
  entity_type : string;
  start : nat;
  end_ : nat;
  score : Q
}.

Definition Qltb (x y : Q) : bool := negb (Qle_bool y x).

Definition code (c : string) : char := hd 0%N (codes c).
Definition chr_range (lo hi : string) (c : char) : bool :=
  in_range (code lo) (code hi) c.

(** ** class InternationalPhoneRecognizer *)

Module InternationalPhoneRecognizer.

Record phone_config := {
  region : string;
  pattern : regex;
  min_length : nat;
  max_length : nat;
  prefix_validator : option (str -> bool);
  confidence : Q
}.

(** [(?<![0-9])] ... [(?![0-9])] around every pattern. *)
Definition phone (body : list regex) : regex :=
  seqs (NotAfter re_09 :: body ++ [NotBefore re_09]).
(** [[-\s]?] *)
Definition sep : regex := opt (Chr (fun c => (c =? code "-")%N || isspace c)).
(** [(?:\+?cc[-\s]?)?] *)
Definition country (cc : string) : regex :=
  opt (seqs [opt (lit "+"); lit cc; sep]).
(** [[0-9]{n}] *)
Definition d (n : nat) : regex := times re_09 n.

Definition cn_prefixes : list string :=
  ["130"; "131"; "132"; "133"; "134"; "135"; "136"; "137"; "138"; "139";
   "145"; "147"; "149"; "150"; "151"; "152"; "153"; "155"; "156"; "157";
   "158"; "159"; "165"; "166"; "170"; "171"; "173"; "175"; "176"; "177";
   "178"; "180"; "181"; "182"; "183"; "184"; "185"; "186"; "187"; "188";
   "189"; "190"; "191"; "192"; "193"; "195"; "196"; "197"; "198"; "199"]%string.

Definition cn_prefix_validator (x : str) : bool :=
  in_words (firstn 3 x) cn_prefixes.

Definition PHONE_PATTERNS : list phone_config :=
  [ (* (?<![0-9])1[3-9][0-9]{9}(?![0-9]) *)
    {| region := "CN";
       pattern := phone [lit "1"; Chr (chr_range "3" "9"); d 9];
       min_length := 11; max_length := 11;
       prefix_validator := Some cn_prefix_validator; confidence := 95 # 100 |};
    (* (?<![0-9])(?:\+?852[-\s]?)?[569][0-9]{3}[-\s]?[0-9]{4}(?![0-9]) *)
    {| region := "HK";
       pattern := phone [country "852"; Chr (one_of "569"); d 3; sep; d 4];
       min_length := 8; max_length := 12;
       prefix_validator := None; confidence := 90 # 100 |};
    (* (?<![0-9])(?:\+?886[-\s]?)?0?9[0-9]{2}[-\s]?[0-9]{3}[-\s]?[0-9]{3}(?![0-9]) *)
    {| region := "TW";
       pattern := phone [country "886"; opt (lit "0"); lit "9"; d 2; sep; d 3; sep; d 3];
       min_length := 9; max_length := 15;
       prefix_validator := None; confidence := 90 # 100 |};
    (* (?<![0-9])(?:\+?1[-\s]?)?\(?[2-9][0-9]{2}\)?[-\s]?[2-9][0-9]{2}[-\s]?[0-9]{4}(?![0-9]) *)
    {| region := "US_CA";
       pattern := phone [country "1"; opt (lit "("); Chr (chr_range "2" "9"); d 2;
                         opt (lit ")"); sep; Chr (chr_range "2" "9"); d 2; sep; d 4];
       min_length := 10; max_length := 16;
       prefix_validator := None; confidence := 85 # 100 |};
    (* (?<![0-9])(?:\+?44[-\s]?)?0?7[0-9]{3}[-\s]?[0-9]{6}(?![0-9]) *)
    {| region := "UK";
       pattern := phone [country "44"; opt (lit "0"); lit "7"; d 3; sep; d 6];
       min_length := 10; max_length := 15;
       prefix_validator := None; confidence := 85 # 100 |};
    (* (?<![0-9])(?:\+?65[-\s]?)?[689][0-9]{3}[-\s]?[0-9]{4}(?![0-9]) *)
    {| region := "SG";
       pattern := phone [country "65"; Chr (one_of "689"); d 3; sep; d 4];
       min_length := 8; max_length := 12;
       prefix_validator := None; confidence := 85 # 100 |};
    (* (?<![0-9])(?:\+?60[-\s]?)?1[0-9]{1}[-\s]?[0-9]{3,4}[-\s]?[0-9]{4}(?![0-9]) *)
    {| region := "MY";
       pattern := phone [country "60"; lit "1"; d 1; sep; Rep re_09 3 (Some 4); sep; d 4];
       min_length := 9; max_length := 12;
       prefix_validator := None; confidence := 85 # 100 |};
    (* (?<![0-9])(?:\+?61[-\s]?)?0?4[0-9]{2}[-\s]?[0-9]{3}[-\s]?[0-9]{3}(?![0-9]) *)
    {| region := "AU";
       pattern := phone [country "61"; opt (lit "0"); lit "4"; d 2; sep; d 3; sep; d 3];
       min_length := 9; max_length := 12;
       prefix_validator := None; confidence := 85 # 100 |};
    (* (?<![0-9])(?:\+?64[-\s]?)?0?2[0-9]{1}[-\s]?[0-9]{3}[-\s]?[0-9]{4}(?![0-9]) *)
    {| region := "NZ";
       pattern := phone [country "64"; opt (lit "0"); lit "2"; d 1; sep; d 3; sep; d 4];
       min_length := 9; max_length := 12;
       prefix_validator := None; confidence := 85 # 100 |};
    (* (?<![0-9])(?:\+?81[-\s]?)?0?(?:70|80|90)[-\s]?[0-9]{4}[-\s]?[0-9]{4}(?![0-9]) *)
    {| region := "JP";
       pattern := phone [country "81"; opt (lit "0");
                         Alt (lit "70") (Alt (lit "80") (lit "90")); sep; d 4; sep; d 4];
       min_length := 10; max_length := 13;
       prefix_validator := None; confidence := 85 # 100 |};
    (* (?<![0-9])(?:\+?82[-\s]?)?0?1[0-9][-\s]?[0-9]{3,4}[-\s]?[0-9]{4}(?![0-9]) *)
    {| region := "KR";
       pattern := phone [country "82"; opt (lit "0"); lit "1"; Chr re_09; sep;
                         Rep re_09 3 (Some 4); sep; d 4];
       min_length := 10; max_length := 13;
       prefix_validator := None; confidence := 85 # 100 |};
    (* (?<![0-9])(?:\+?91[-\s]?)?[6-9][0-9]{4}[-\s]?[0-9]{5}(?![0-9]) *)
    {| region := "IN";
       pattern := phone [country "91"; Chr (chr_range "6" "9"); d 4; sep; d 5];
       min_length := 10; max_length := 12;
       prefix_validator := None; confidence := 85 # 100 |} ].

(** The dict appended to [results]. *)
Record phone_hit := {
  ph_text : str;
  ph_start : nat;
  ph_end : nat;
  ph_type : string;
  ph_score : Q;
  ph_region : string
}.

(** [re.sub(r'[\s\-\+\(\)]', '', raw_match)] *)
Definition is_separator (c : char) : bool := isspace c || one_of "-+()" c.
Definition clean (raw_match : str) : str :=
  filter (fun c => negb (is_separator c)) raw_match.

(** Body of the inner loop for one match: the two [continue] guards, then
    the append. *)
Definition analyze_match (text : str) (config : phone_config) (m : rematch)
    : list phone_hit :=
  let raw_match := group0 text m in
  let clean_num := clean raw_match in
  if negb ((min_length config <=? List.length clean_num)
           && (List.length clean_num <=? max_length config))%nat then []
  else if match prefix_validator config with
          | Some validator => negb (validator clean_num)
          | None => false
          end then []
  else [ {| ph_text := raw_match; ph_start := mt_start m; ph_end := mt_end m;
            ph_type := "PHONE_NUMBER"; ph_score := confidence config;
            ph_region := region config |} ].

Definition analyze (text : str) : list phone_hit :=
  flat_map (fun config =>
              flat_map (analyze_match text config)
                       (finditer (pattern config) text))
           PHONE_PATTERNS.

End InternationalPhoneRecognizer.

(** ** class SurnameManager *)

Module SurnameManager.

Definition single_surnames : list string :=
  ["bai"; "ban"; "bao"; "bei"; "bi"; "bian"; "biao"; "bie"; "bin"; "bing";
   "bo"; "bu"; "cai"; "cao"; "cen"; "chai"; "chan"; "chang"; "chao"; "che";
   "chen"; "cheng"; "chi"; "chong"; "chou"; "chu"; "chuan"; "chuang";
   "chun"; "ci"; "cong"; "cui"; "cun"; "cuo"; "da"; "dai"; "dan"; "dang";
   "dao"; "de"; "deng"; "di"; "dian"; "diao"; "ding"; "diu"; "dong"; "dou";
   "du"; "duan"; "dun"; "duo"; "e"; "en"; "er"; "fa"; "fan"; "fang"; "fei";
   "fen"; "feng"; "fo"; "fou"; "fu"; "ga"; "gai"; "gan"; "gang"; "gao";
   "ge"; "gei"; "gen"; "geng"; "gong"; "gou"; "gu"; "gua"; "guai"; "guan";
   "guang"; "gui"; "gun"; "guo"; "ha"; "hai"; "han"; "hang"; "hao"; "he";
   "hei"; "hen"; "heng"; "hong"; "hou"; "hu"; "hua"; "huai"; "huan";
   "huang"; "hui"; "hun"; "huo"; "ji"; "jia"; "jian"; "jiang"; "jiao";
   "jie"; "jin"; "jing"; "jiong"; "jiu"; "ju"; "juan"; "jue"; "jun"; "ka";
   "kai"; "kan"; "kang"; "kao"; "ke"; "ken"; "keng"; "kong"; "kou"; "ku";
   "kua"; "kuai"; "kuan"; "kuang"; "kui"; "kun"; "kuo"; "la"; "lai"; "lan";
   "lang"; "lao"; "le"; "lei"; "leng"; "li"; "lia"; "lian"; "liang";
   "liao"; "lie"; "lin"; "ling"; "liu"; "long"; "lou"; "lu"; "luan"; "lun";
   "luo"; "ma"; "mai"; "man"; "mang"; "mao"; "me"; "mei"; "men"; "meng";
   "mi"; "mian"; "miao"; "mie"; "min"; "ming"; "miu"; "mo"; "mou"; "mu";
   "na"; "nai"; "nan"; "nang"; "nao"; "ne"; "nei"; "nen"; "neng"; "ni";
   "nian"; "niang"; "niao"; "nie"; "nin"; "ning"; "niu"; "nong"; "nu";
   "nuan"; "o"; "ou"; "pa"; "pai"; "pan"; "pang"; "pao"; "pei"; "pen";
   "peng"; "pi"; "pian"; "piao"; "pie"; "pin"; "ping"; "po"; "pou"; "pu";
   "qi"; "qia"; "qian"; "qiang"; "qiao"; "qie"; "qin"; "qing"; "qiong";
   "qiu"; "qu"; "quan"; "que"; "qun"; "ran"; "rang"; "rao"; "re"; "ren";
   "reng"; "ri"; "rong"; "rou"; "ru"; "ruan"; "rui"; "run"; "ruo"; "sa";
   "sai"; "san"; "sang"; "sao"; "se"; "sen"; "seng"; "sha"; "shai"; "shan";
   "shang"; "shao"; "she"; "shen"; "sheng"; "shi"; "shou"; "shu"; "shua";
   "shuai"; "shuan"; "shuang"; "shui"; "shun"; "shuo"; "si"; "song"; "sou";
   "su"; "suan"; "sui"; "sun"; "suo"; "ta"; "tai"; "tan"; "tang"; "tao";
   "te"; "teng"; "ti"; "tian"; "tiao"; "tie"; "ting"; "tong"; "tou"; "tu";
   "tuan"; "tui"; "tun"; "tuo"; "wa"; "wai"; "wan"; "wang"; "wei"; "wen";
   "weng"; "wo"; "wu"; "xi"; "xia"; "xian"; "xiang"; "xiao"; "xie"; "xin";
   "xing"; "xiong"; "xiu"; "xu"; "xuan"; "xue"; "xun"; "ya"; "yan"; "yang";
   "yao"; "ye"; "yi"; "yin"; "ying"; "yo"; "yong"; "you"; "yu"; "yuan";
   "yue"; "yun"; "za"; "zai"; "zan"; "zang"; "zao"; "ze"; "zei"; "zen";
   "zeng"; "zha"; "zhai"; "zhan"; "zhang"; "zhao"; "zhe"; "zhen"; "zheng";
   "zhi"; "zhong"; "zhou"; "zhu"; "zhua"; "zhuai"; "zhuan"; "zhuang";
   "zhui"; "zhun"; "zhuo"; "zi"; "zong"; "zou"; "zu"; "zuan"; "zui"; "zun";
   "zuo"; "lee"; "ng"; "yung"; "yee"; "yip"; "teoh"; "tay"; "tham"; "woon";
   "chan"; "chiu"; "chao"; "wong"; "hwang"; "chou"; "shyu"; "hsu"; "suen";
   "kwok"; "ho"; "lam"; "lo"; "cheng"; "tsieh"; "yuen"; "tsang"; "chong";
   "chung"; "tsui"; "shek"; "shum"; "cheung"; "cheong"; "chueng"; "leung";
   "leong"; "yeung"; "chau"; "lau"; "kwan"; "kwong"; "yau"]%string.

Definition compound_surnames : list string :=
  ["ouyang"; "shangguan"; "sima"; "zhuge"; "ximen"; "beigong"; "gongsun";
   "chunyu"; "dantai"; "dongfang"; "duanmu"; "gongxi"; "gongye"; "guliang";
   "guanqiu"; "haan"; "huangfu"; "jiagu"; "jinyun"; "lanxu"; "liangqiu";
   "linghu"; "lvqiu"; "moyao"; "nangong"; "shusun"; "situ"; "taihu";
   "weisheng"; "wuyan"; "xiahou"; "xianyu"; "xiangsi"; "xueqiu"; "yanshi";
   "yuchi"; "zhaoshe"; "zhengxi"; "zhongli"; "zhongsun"; "zhuanyu";
   "zhuansun"; "zongzheng"; "zuifu"; "nalan"; "auyeung"; "szeto"]%string.

Definition blacklist : list string :=
  ["change"; "challenge"; "chance"; "channel"; "charge"; "chart"; "chat";
   "cheap"; "check"; "cheese"; "chemical"; "chest"; "chicken"; "chief";
   "child"; "china"; "chinese"; "chocolate"; "choice"; "choose";
   "christmas"; "church"; "cinema"; "admin"; "root"; "user"; "test";
   "guest"; "default"; "password"; "username"; "login"; "logout"; "system";
   "server"; "client"; "database"; "email"; "mail"; "phone"; "mobile";
   "contact"; "info"; "information"; "address"; "name"; "id"; "account";
   "profile"; "setting"; "config"; "configuration"; "api"; "interface";
   "example"; "gmail"; "yahoo"; "hotmail"; "qq"; "163"; "126"; "sina";
   "outlook"; "icloud"; "protonmail"; "foxmail"; "aliyun"; "sohu"; "yeah";
   "live"; "msn"; "this"; "that"; "with"; "from"; "they"; "have"; "were";
   "said"; "time"; "than"; "them"; "into"; "just"; "like"; "over"; "also";
   "back"; "only"; "know"; "take"; "year"; "good"; "some"; "come"; "make";
   "well"; "very"; "when"; "much"; "would"; "there"; "their"; "what";
   "about"; "which"; "after"; "first"; "never"; "these"; "think"; "where";
   "being"; "every"; "great"; "might"; "shall"; "while"; "those"; "before";
   "should"; "himself"; "themselves"; "both"; "any"; "each"; "few"; "more";
   "most"; "other"; "some"; "such"; "what"; "which"; "who"; "whom";
   "whose"; "why"; "how"; "all"; "any"; "both"; "each"; "few"; "more";
   "most"; "other"; "some"; "such"; "no"; "nor"; "not"; "only"; "own";
   "same"; "so"; "than"; "too"; "very"]%string.

Section WithTables.
Variable U : Unicode.

Definition is_surname (word : str) : bool :=
  let w_lower := lower U word in
  if in_words w_lower blacklist then false
  else in_words w_lower single_surnames || in_words w_lower compound_surnames.

Record name_hit := {
  nm_text : str;
  nm_start : nat;
  nm_end : nat;
  nm_type : string;
  nm_score : Q
}.

(** [\b([A-Z][a-z]+)\s+([A-Z][a-z]+)\b] *)
Definition capitalized : regex := Seq (Chr re_AZ) (plus re_az).
Definition two_capitalized_words : regex :=
  seqs [WordBoundary (re_word U); Group 1 capitalized; plus isspace;
        Group 2 capitalized; WordBoundary (re_word U)].

Definition name_hit_of (text : str) (m : rematch) (sc : Q) : name_hit :=
  {| nm_text := group0 text m; nm_start := mt_start m; nm_end := mt_end m;
     nm_type := "PERSON"; nm_score := sc |}.

Definition detect_names (text : str) : list name_hit :=
  let results := [] in
  (* two consecutive capitalized words, at least one of them a surname *)
  let results := results ++
    flat_map (fun m =>
                let word1 := group text m 1 in
                let word2 := group text m 2 in
                if is_surname word1 || is_surname word2
                then [name_hit_of text m (85 # 100)] else [])
             (finditer two_capitalized_words text) in
  (* compound surnames explicitly *)
  let results := results ++
    flat_map (fun m =>
                if in_words (lower U (group text m 1)) compound_surnames
                then [name_hit_of text m (9 # 10)] else [])
             (finditer two_capitalized_words text) in
  results.

End WithTables.

End SurnameManager.

(** ** Output normalizer *)

Module Normalizer.

(** [([A-Za-z0-9])(\[)], [(\])([A-Za-z0-9])] and the template [\1 \2]. *)
Definition alnum_bracket_pattern : regex :=
  Seq (Group 1 (Chr re_alnum)) (Group 2 (Chr (fun c => (c =? LBRACKET)%N))).
Definition bracket_alnum_pattern : regex :=
  Seq (Group 1 (Chr (fun c => (c =? RBRACKET)%N))) (Group 2 (Chr re_alnum)).
Definition spaced_groups (text : str) (m : rematch) : str :=
  group text m 1 ++ [SPACE] ++ group text m 2.

Definition _normalize_output (text : str) : str :=
  let text := re_sub alnum_bracket_pattern spaced_groups text in
  let text := re_sub bracket_alnum_pattern spaced_groups text in
  let text := strip (collapse_spaces text) in
  text.

(** The first substitution as a scan: left to right, a match takes the two
    characters and the scan goes on after them. *)
Fixpoint sub_alnum_bracket (s : str) : str :=
  match s with
  | [] => []
  | c :: rest =>
      match rest with
      | [] => [c]
      | d :: rest' =>
          if re_alnum c && (d =? LBRACKET)%N
          then c :: SPACE :: d :: sub_alnum_bracket rest'
          else c :: sub_alnum_bracket rest
      end
  end.

(** The second substitution as a scan. *)
Fixpoint sub_bracket_alnum (s : str) : str :=
  match s with
  | [] => []
  | c :: rest =>
      match rest with
      | [] => [c]
      | d :: rest' =>
          if (c =? RBRACKET)%N && re_alnum d
          then c :: SPACE :: d :: sub_bracket_alnum rest'
          else c :: sub_bracket_alnum rest
      end
  end.

(** No two neighbours of [s] are related by [R]. *)
Fixpoint adj_free (R : char -> char -> bool) (s : str) : bool :=
  match s with
  | [] => true
  | a :: r =>
      match r with
      | [] => true
      | b :: _ => negb (R a b) && adj_free R r
      end
  end.

Definition alnum_then_open (a b : char) : bool := re_alnum a && (b =? LBRACKET)%N.
Definition close_then_alnum (a b : char) : bool := (a =? RBRACKET)%N && re_alnum b.
Definition both_space (a b : char) : bool := isspace a && isspace b.

End Normalizer.

(** ** External collaborators *)

(** [datetime]: only the calendar date matters here. *)
Record datetime := { year : Z; month : Z; day : Z }.

(** What the HanLP recognizer yields per entity: a tuple, used only when it
    has at least four components [(text, label, start, end)]. *)
Inductive hanlp_item :=
| ShortItem
| Entity (entity_text : str) (label : string) (e_start e_end : nat).

(** Anonymizer operators: [OperatorConfig("replace", {"new_value": v})] and
    [OperatorConfig("keep")]. *)
Inductive operator :=
| Replace (new_value : string)
| Keep.

Record Env := {
  unicode : Unicode;
  (* self.analyzer.analyze(text=text, language='en', score_threshold=0.4) *)
  analyzer_analyze : str -> result (list RecognizerResult);
  (* self.hanlp_ner, None when the model is not loaded; called on list(text) *)
  hanlp_ner : option (str -> result (list hanlp_item));
  (* dateutil's parser.parse(s, fuzzy=True) *)
  parser_parse : str -> result datetime;
  (* datetime.now().year *)
  now_year : Z;
  (* self.anonymizer.anonymize(text=, analyzer_results=, operators=).text *)
  anonymize : str -> list RecognizerResult -> list (string * operator) -> result str
}.

(** ** datetime.strptime on eight digits *)

Module Strptime.

Inductive date_format :=
| MDY    (* "%m%d%Y" *)
| DMY    (* "%d%m%Y" *)
| YMD.   (* "%Y%m%d" *)

Definition is_leap (y : Z) : bool :=
  ((y mod 4 =? 0) && negb (y mod 100 =? 0) || (y mod 400 =? 0))%Z.

Definition days_in_month (y m : Z) : Z :=
  (if m =? 2 then (if is_leap y then 29 else 28)
   else if (m =? 4) || (m =? 6) || (m =? 9) || (m =? 11) then 30 else 31)%Z.

(** The [datetime] constructor raises [ValueError] outside the calendar. *)
Definition make_date (y m d : Z) : result datetime :=
  if ((1 <=? y) && (y <=? 9999) && (1 <=? m) && (m <=? 12)
      && (1 <=? d) && (d <=? days_in_month y m))%Z
  then Ok {| year := y; month := m; day := d |}
  else Raise ValueError.

Definition digit_of (c : char) : Z := (Z.of_N c - 48)%Z.

Section WithTables.
Variable U : Unicode.

(** [re.fullmatch(r'\d{8}', s)] *)
Definition is_eight_digits (s : str) : bool :=
  (List.length s =? 8)%nat
  && forallb (fun c => match re_decimal U c with Some _ => true | None => false end) s.

(** The directive patterns of [_strptime], on a field of two characters:
    %m is [1[0-2]|0[1-9]|[1-9]] and %d is [3[0-1]|[1-2]\d|0[1-9]|[1-9]| [1-9]].
    On a string of eight digits the parse uses all of the string only when
    both fields take two characters; with a one-character field the match
    stops short and strptime raises "unconverted data remains". *)
Definition field_m (a b : char) : option Z :=
  if ((a =? code "1")%N && chr_range "0" "2" b)
     || ((a =? code "0")%N && chr_range "1" "9" b)
  then Some (10 * digit_of a + digit_of b)%Z
  else None.

Definition field_d (a b : char) : option Z :=
  if (a =? code "3")%N && chr_range "0" "1" b then Some (30 + digit_of b)%Z
  else if chr_range "1" "2" a then
    match re_decimal U b with
    | Some v => Some (10 * digit_of a + v)%Z
    | None => None
    end
  else if (a =? code "0")%N && chr_range "1" "9" b then Some (digit_of b)
  else None.

(** %Y is [\d\d\d\d], converted by [int]. *)
Definition field_Y (a b c d : char) : option Z :=
  match re_decimal U a, re_decimal U b, re_decimal U c, re_decimal U d with
  | Some x, Some y, Some z, Some w => Some (1000 * x + 100 * y + 10 * z + w)%Z
  | _, _, _, _ => None
  end.

Definition build (m d y : option Z) : result datetime :=
  match m, d, y with
  | Some m, Some d, Some y => make_date y m d
  | _, _, _ => Raise ValueError
  end.

(** [datetime.strptime(s, fmt)] for [s] of eight digits. *)
Definition strptime (s : str) (fmt : date_format) : result datetime :=
  match s with
  | [c1; c2; c3; c4; c5; c6; c7; c8] =>
      match fmt with
      | MDY => build (field_m c1 c2) (field_d c3 c4) (field_Y c5 c6 c7 c8)
      | DMY => build (field_m c3 c4) (field_d c1 c2) (field_Y c5 c6 c7 c8)
      | YMD => build (field_m c5 c6) (field_d c7 c8) (field_Y c1 c2 c3 c4)
      end
  | _ => Raise ValueError
  end.

End WithTables.

End Strptime.

(** ** class AirlinePIIRedactor *)

Module AirlinePIIRedactor.
Import Strptime.

Definition pnr_blacklist : list string :=
  ["FLIGHT"; "TICKET"; "BOARD"; "SEATS"; "CABIN"; "PILOT"; "STAFF"; "HOTEL";
   "EVENT"; "FIRST"; "CLASS"; "TOTAL"; "GROUP"; "WORLD"; "HELLO"; "THANK";
   "DELAY"; "CLAIM"; "ROUTE"; "ADULT"; "CHILD"; "PRICE"; "TAXES"; "CHECK";
   "VALID"; "ISSUE"; "EMAIL"; "PHONE"; "OFFER"; "POINT"; "MILES"; "PARTY";
   "GUEST"; "SORRY"; "REPLY"; "ADMIN"; "AGENT"; "HOURS"; "DATES"; "TIMES";
   "MONTH"; "YEARS"; "COACH"; "INFANT"; "BAGGAGE"; "LUGGAGE"; "CREW";
   "STATUS"; "GATE"; "ARRIVAL"; "DEPART"; "ROUND"; "TRIP"; "FARES";
   "CODES"; "RULES"; "TERMS"; "APPLY"; "ABOUT"; "PRESS"; "MEDIA"; "LOGIN";
   "WHERE"; "THERE"; "WHICH"; "OTHER"; "THEIR"; "BELOW"; "ABOVE"; "UNDER";
   "AFTER"; "UNTIL"; "SINCE"; "WHILE"; "NEVER"; "AGAIN"; "ENTRY"; "EXIT";
   "AISLE"; "MEALS"; "SNACK"; "DRINK"; "WATER"; "JUICE"; "WINES"; "BEERS";
   "SALES"; "DEALS"; "CARGO"; "FLEET"; "UNION"; "TRUST"; "VALUE"; "SCORE";
   "LEVEL"; "TIERS"; "BASIC"; "SMART"; "SUPER"; "HAPPY"; "ENJOY"; "VISIT";
   "WATCH"; "VIDEO"; "AUDIO"; "MUSIC"; "MOVIE"; "POWER"; "LIGHT"; "NIGHT";
   "DAILY"; "WEEK"; "TODAY"; "LATER"; "EARLY"; "QUICK"; "SPEED"; "SPACE";
   "PLACE"; "TOUCH"; "SCREEN"; "PANEL"; "LEVER"; "PEDAL"; "WHEEL"; "TIRES";
   "BRAKE"; "GEARS"; "WING"; "TAIL"; "NOSE"; "BODY"; "PAINT"; "COLOR";
   "WHITE"; "BLACK"; "GREEN"; "STYLE"; "MODEL"; "BUILD"; "MAKER"; "OWNER";
   "BUYER"; "LEASE"; "RENT"; "HIRE"; "COSTS"; "SPEND"; "MONEY"; "CASH";
   "CARD"; "DEBIT"; "BANKS"; "LOANS"; "RATES"; "TAXIS"; "TRAIN"; "BUSES";
   "METRO"; "FERRY"; "SHIPS"; "BOAT"; "CYCLE"; "DRIVE"; "RIDER"; "WALKS";
   "STEPS"; "MILE"; "METER"; "KILO"; "GRAMS"; "POUND"; "OUNCE"; "LITER";
   "GALLON"; "REFUND"; "CANCEL"; "UPDATE"; "NOTICE"; "ALERT"; "SAFETY";
   "OXYGEN"; "JACKET"; "WINDOW"; "MIDDLE"; "CENTER"; "GALLEY"; "TOILET";
   "LOUNGE"; "ACCESS"; "MEMBER"; "SILVER"; "GOLD"; "ELITE"; "POINTS";
   "WALLET"; "PAYMENT"; "AMOUNT"; "NUMBER"; "COUNT"; "COST"; "RATE";
   "FARE"; "CHARGES"; "DUTY"; "GOODS"; "ITEMS"; "BAGS"; "PLANE"; "AIRBUS";
   "BOEING"; "HELPDESK"; "SUPPORT"; "OFFICE"; "CENTER"; "MOBILE"; "APP";
   "WEB"; "SITE"; "LINK"; "CLICK"; "CHOOSE"; "OPTION"; "ACTION"; "RESULT";
   "ERROR"; "FAULT"; "CASE"; "FILE"; "RECORD"; "DATA"; "INFO"; "QUERY";
   "ASK"; "HELP"; "FAQ"; "HOME"; "MAIN"; "MENU"; "BACK"; "NEXT"; "PREV";
   "LAST"; "DONE"; "FINISH"; "START"; "END"; "STOP"; "OPEN"; "CLOSE";
   "LOCK"; "UNLOCK"]%string.

Definition pnr_context_keywords : list string :=
  ["pnr"; "record locator"; "booking"; "reservation"; "confirm";
   "confirmation"; "itinerary"; "ticket"; "locator"; "ref"; "reference"]%string.

Definition chinese_surnames : list str :=
  ([[36213]; [38065]; [23385]; [26446]; [21608]; [21556]; [37073]; [29579];
   [20911]; [38472]; [35098]; [21355]; [33931]; [27784]; [38889]; [26472];
   [26417]; [31206]; [23588]; [35768]; [20309]; [21525]; [26045]; [24352];
   [23380]; [26361]; [20005]; [21326]; [37329]; [39759]; [38518]; [23004];
   [26519]; [39532]; [32993]; [39640]; [26753]; [23435]; [37011]; [21494];
   [33487]; [21346]; [32599]; [37101]; [36182]; [35874]; [37041]; [20399];
   [26366]; [40654]; [28504]; [26460]; [37049]; [34945]; [19969]; [34081];
   [23828]; [34203]; [24278]; [23609]; [27573]; [38647]; [33539]; [27754];
   [38515]; [40643]; [24373]; [21129]; [21555]; [37165]; [34083]; [37159];
   [33865]; [34311]; [30439]; [32645]; [36084]; [35613]; [37758]; [39342];
   [39340]; [26954]; [26753]; [23435]; [35377]; [34157]; [40852]; [35674];
   [27431; 38451]; [22826; 21490]; [31471; 26408]; [19978; 23448]; [21496;
   39532]; [19996; 26041]; [29420; 23396]; [21335; 23467]; [19975; 20447];
   [38395; 20154]; [22799; 20399]; [35832; 33883]; [23561; 36831]; [20844;
   32650]; [27472; 38525]; [21496; 39340]; [26481; 26041]; [29544; 23396];
   [21335; 23470]; [33836; 20447]; [32862; 20154]; [35576; 33883]; [23561;
   36978]])%N.

Definition trad_additions : list str :=
  ([[38515]; [40643]; [24373]; [21129]; [21555]; [37165]; [34083]; [37159];
   [33865]; [34311]; [30439]; [32645]; [36084]; [35613]; [37758]])%N.

(** [_configure_anonymizer] *)
Definition anonymizer_operators : list (string * operator) :=
  [ ("PERSON", Replace "[NAME]");
    ("PHONE_NUMBER", Replace "[Phone]");
    ("DATE_TIME", Replace "[DOB]");
    ("EMAIL_ADDRESS", Replace "[Email]");
    ("US_BANK_NUMBER", Replace "[Payment]");
    ("UK_NHS", Replace "[ID]");
    ("US_DRIVER_LICENSE", Replace "[ID]");
    ("PNR", Replace "[PNR]");
    ("Flight Number", Replace "[Flight no]");
    ("Ticket Number", Replace "[Ticket no]");
    ("Frequent Flyer", Replace "[Frequent Flyer]");
    ("CREDIT_CARD", Replace "[Payment]") ]%string.

(** The dicts of [_get_hanlp_entities] and [_get_custom_chinese_names]. *)
Record cn_hit := {
  cn_text : str;
  cn_start : nat;
  cn_end : nat;
  cn_type : string
}.

(** [sorted(surnames, key=len, reverse=True)]: stable, longest first. *)
Fixpoint insert_by_len (w : str) (l : list str) : list str :=
  match l with
  | [] => [w]
  | x :: r =>
      if (List.length x <? List.length w)%nat then w :: l
      else x :: insert_by_len w r
  end.

Definition sorted_by_len_desc (l : list str) : list str :=
  fold_right insert_by_len [] l.

(** The surname list after the traditional characters missing from it are
    appended. *)
Definition surnames : list str :=
  fold_left (fun acc s => if existsb (str_eqb s) acc then acc else acc ++ [s])
            trad_additions chinese_surnames.

(** [(s1|s2|...)[⺀-鿿]{1,2}] *)
Definition _chinese_name_pattern : regex :=
  Seq (Group 1 (alts (map lit_str (sorted_by_len_desc surnames))))
      (Rep (in_range 11904 40959) 1 (Some 2)).

Definition _get_custom_chinese_names (text : str) : list cn_hit :=
  map (fun m => {| cn_text := group0 text m; cn_start := mt_start m;
                   cn_end := mt_end m; cn_type := "REGEX_NAME" |})
      (finditer _chinese_name_pattern text).

Section WithEnv.
Variable E : Env.
Let U := unicode E.

Definition _get_hanlp_entities (text : str) : list cn_hit :=
  match hanlp_ner E with
  | None => []
  | Some ner =>
      match ner text with
      | Raise _ => []
      | Ok entities =>
          flat_map (fun item =>
                      match item with
                      | ShortItem => []
                      | Entity entity_text label s e =>
                          if existsb (String.eqb label) ["NR"; "PERSON"; "PER"]%string
                          then [ {| cn_text := entity_text; cn_start := s;
                                    cn_end := e; cn_type := label |} ]
                          else []
                      end)
                   entities
      end
  end.

(** [text[left:right].lower()] for the window of 30 characters on each
    side of [start, end). *)
Definition snippet (text : str) (start_ end__ : nat) : str :=
  let window := 30 in
  let left := start_ - window in            (* max(0, start - window) *)
  let right := Nat.min (List.length text) (end__ + window) in
  lower U (slice text left right).

Definition is_valid_pnr (text entity_text : str) (start_ end__ : nat) : bool :=
  if in_words (upper U entity_text) pnr_blacklist then false
  else if isalpha U entity_text && negb (isupper U entity_text) then false
  else if existsb (c_isdigit U) entity_text then true
  else
    let snip := snippet text start_ end__ in
    existsb (fun k => contains (codes k) snip) pnr_context_keywords.

Definition is_valid_flight_number (text : str) : bool :=
  let parts := split_ws text in
  match parts with
  | [] => false
  | _ => if existsb (c_islower U) text then false else true
  end.

Definition is_valid_frequent_flyer (text : str) : bool :=
  if existsb (c_islower U) text then false
  else if isdigit U text then false
  else true.

(** The part of [is_likely_dob] inside the outer [try]. *)
Definition dob_try_body (date_text : str) : result bool :=
  parsed <-
    (if is_eight_digits U date_text then
       try_except is_ValueError
         (dt <- strptime U date_text MDY ;; Ok (Some dt))
         (fun _ =>
            try_except is_ValueError
              (dt <- strptime U date_text DMY ;; Ok (Some dt))
              (fun _ =>
                 try_except is_ValueError
                   (dt <- strptime U date_text YMD ;; Ok (Some dt))
                   (fun _ => Ok None)))        (* return False *)
     else
       let clean_text := strip (collapse_spaces date_text) in
       dt <- parser_parse E clean_text ;; Ok (Some dt)) ;;
  match parsed with
  | None => Ok false
  | Some dt =>
      let current_year := now_year E in
      if (year dt >? current_year)%Z then Ok false
      else if (current_year - year dt <=? 2)%Z then Ok false
      else if ((1900 <? year dt) && (year dt <=? current_year - 2))%Z then Ok true
      else Ok false
  end.

Definition is_likely_dob (date_text : str) : result bool :=
  try_except (fun _ => true) (dob_try_body date_text) (fun _ => Ok false).

Definition ff_context_keywords : list string :=
  ["flyer"; "miles"; "points"; "member"; "club"; "program"; "card"]%string.

Definition common_name_words : list string :=
  ["may"; "will"; "can"; "long"; "young"; "man"; "king"; "mark"; "rose";
   "read"; "book"]%string.

(** One round of the loop of step 7: the new value of [final_results]. *)
Definition refine_step (text : str) (final_results : list RecognizerResult)
    (res : RecognizerResult) : result (list RecognizerResult) :=
  let entity_text := strip (slice text (start res) (end_ res)) in
  if (entity_type res =? "DATE_TIME")%string then
    b <- is_likely_dob entity_text ;;
    Ok (if b then final_results ++ [res] else final_results)
  else if (entity_type res =? "PNR")%string then
    Ok (if is_valid_pnr text entity_text (start res) (end_ res)
        then final_results ++ [res] else final_results)
  else if (entity_type res =? "Flight Number")%string then
    Ok (if is_valid_flight_number entity_text
        then final_results ++ [res] else final_results)
  else if (entity_type res =? "Frequent Flyer")%string then
    Ok (if is_valid_frequent_flyer entity_text
        then (if existsb (fun k => contains (codes k)
                                     (snippet text (start res) (end_ res)))
                         ff_context_keywords
              then final_results ++ [res] else final_results)
        else final_results)
  else if (entity_type res =? "PERSON")%string then
    if (List.length (split_ws entity_text) =? 1)%nat
       && in_words (lower U entity_text) common_name_words
       && Qltb (score res) (6 # 10)
    then Ok final_results                                  (* continue *)
    else Ok (final_results ++ [res])
  else Ok (final_results ++ [res]).

Fixpoint refine_loop (text : str) (combined_results : list RecognizerResult)
    (final_results : list RecognizerResult) : result (list RecognizerResult) :=
  match combined_results with
  | [] => Ok final_results
  | res :: rest =>
      final_results' <- refine_step text final_results res ;;
      refine_loop text rest final_results'
  end.

Definition mkResult (ty : string) (s e : nat) (sc : Q) : RecognizerResult :=
  {| entity_type := ty; start := s; end_ := e; score := sc |}.

(** [(?<!\d)\d{13}(?!\d)] *)
Definition re_d (c : char) : bool :=
  match re_decimal U c with Some _ => true | None => false end.
Definition sticky_ticket_pattern : regex :=
  seqs [NotAfter re_d; times re_d 13; NotBefore re_d].

(** Steps 1 to 6 of [redact]: [combined_results]. *)
Definition combined_results (text : str) : result (list RecognizerResult) :=
  results <- analyzer_analyze E text ;;
  let phone_results_raw := InternationalPhoneRecognizer.analyze text in
  let phone_results :=
    map (fun p => mkResult "PHONE_NUMBER"
                    (InternationalPhoneRecognizer.ph_start p)
                    (InternationalPhoneRecognizer.ph_end p)
                    (InternationalPhoneRecognizer.ph_score p))
        phone_results_raw in
  let hanlp_raw := _get_hanlp_entities text in
  let custom_raw := _get_custom_chinese_names text in
  let hanlp_entities :=
    filter (fun e => negb (existsb (fun c => re_az c || re_AZ c) (cn_text e)))
           hanlp_raw in
  let chinese_results :=
    map (fun entity => mkResult "PERSON" (cn_start entity) (cn_end entity) (9 # 10))
        (hanlp_entities ++ custom_raw) in
  let romanized_raw := SurnameManager.detect_names U text in
  let romanized_results :=
    map (fun r => mkResult "PERSON" (SurnameManager.nm_start r)
                    (SurnameManager.nm_end r) (SurnameManager.nm_score r))
        romanized_raw in
  let sticky_tickets :=
    map (fun m => mkResult "Ticket Number" (mt_start m) (mt_end m) (9 # 10))
        (finditer sticky_ticket_pattern text) in
  Ok (results ++ phone_results ++ chinese_results ++ romanized_results
      ++ sticky_tickets).

(** Step 7: the list handed to the anonymizer. *)
Definition final_results (text : str) : result (list RecognizerResult) :=
  combined <- combined_results text ;;
  refine_loop text combined [].

(** [is_overlap], the helper defined inside [redact] (never called). *)
Definition overlaps (a b : RecognizerResult) : bool :=
  (Nat.max (start a) (start b) <? Nat.min (end_ a) (end_ b))%nat.
Definition is_overlap (new_res : RecognizerResult)
    (existing_list : list RecognizerResult) : bool :=
  existsb (overlaps new_res) existing_list.

Definition redact (text : str) : result str :=
  final <- final_results text ;;
  (* 8. Anonymize *)
  try_except is_Exception
    (let ops := anonymizer_operators
                ++ [("ORGANIZATION", Keep); ("LOCATION", Keep);
                    ("GPE", Keep); ("NRP", Keep)]%string in
     output_text <- anonymize E text final ops ;;
     let output_text := Normalizer._normalize_output output_text in
     Ok output_text)
    (fun _ => Ok text).

End WithEnv.

End AirlinePIIRedactor.

(** ** An environment for examples *)

(** ASCII tables, an analyzer that finds nothing, no HanLP model, a date
    parser that recognizes nothing, the year 2026 and an anonymizer that
    keeps the text: enough to run the module's own recognizers and
    validators on ASCII text. *)
Definition ascii_env : Env := {|
  unicode := ascii_tables;
  analyzer_analyze := fun _ => Ok [];
  hanlp_ner := None;
  parser_parse := fun _ => Raise (OtherException "ParserError");
  now_year := 2026%Z;
  anonymize := fun text _ _ => Ok text
|}.

(** [a] occurs in [b] as a contiguous part. *)
Definition infix (a b : str) : Prop := exists pre post, b = pre ++ a ++ post.

(** ** What a pattern can consume *)

(** The characters a match of [r] may contain, and the least number of
    characters it takes. *)
Fixpoint chars_of (r : regex) (c : char) : bool :=
  match r with
  | Chr p => p c
  | Seq a b | Alt a b => chars_of a c || chars_of b c
  | Rep p _ _ => p c
  | Group _ a => chars_of a c
  | Eps | WordBoundary _ | NotAfter _ | NotBefore _ => false
  end.

Fixpoint min_len (r : regex) : nat :=
  match r with
  | Chr _ => 1
  | Seq a b => min_len a + min_len b
  | Alt a b => Nat.min (min_len a) (min_len b)
  | Rep _ lo _ => lo
  | Group _ a => min_len a
  | Eps | WordBoundary _ | NotAfter _ | NotBefore _ => 0
  end.

(** From [st] the matcher has read [consumed], at least [n] characters, all
    in [P], and stands at [st']. *)
Definition steps (P : char -> bool) (n : nat) (st st' : mstate) : Prop :=
  exists consumed,
    m_rest st = consumed ++ m_rest st' /\
    m_pos st' = m_pos st + List.length consumed /\
    forallb P consumed = true /\
    n <= List.length consumed.

(** [m] is a match of [r] in [text]: it lies within the text, takes at
    least [min_len r] characters, and they are all characters of [r]. *)
Definition match_of (r : regex) (text : str) (m : rematch) : Prop :=
  mt_start m + min_len r <= mt_end m /\
  mt_end m <= List.length text /\
  List.length (group0 text m) = mt_end m - mt_start m /\
  forallb (chars_of r) (group0 text m) = true.

(** Each match ends before the later ones start. *)
Definition in_scan_order (l : list rematch) : Prop :=
  ForallOrdPairs (fun a b => mt_end a <= mt_start b) l.

(** ** Specification-side definitions *)

(** The predicates and pure functions the properties below are stated
    with. *)
Module Spec.
Import Strptime AirlinePIIRedactor InternationalPhoneRecognizer.

(** Every white space character of [s] is the space itself. *)
Definition only_plain_spaces (s : str) : bool :=
  forallb (fun c => negb (isspace c) || (c =? SPACE)%N) s.

Definition starts_nonspace (s : str) : bool :=
  match s with [] => true | c :: _ => negb (isspace c) end.

(** The two guards of [analyze] on the stripped number. *)
Definition accepted (config : phone_config) (clean_num : str) : Prop :=
  (min_length config <= List.length clean_num)%nat /\
  (List.length clean_num <= max_length config)%nat /\
  (forall validator,
      prefix_validator config = Some validator -> validator clean_num = true).

Definition hit_of (text : str) (config : phone_config) (m : rematch) : phone_hit :=
  {| ph_text := group0 text m; ph_start := mt_start m; ph_end := mt_end m;
     ph_type := "PHONE_NUMBER"; ph_score := confidence config;
     ph_region := region config |}.

(** Lowercasing a text keeps the context keywords found in the lowercase
    form of any part of it.  The keywords are ASCII and [str.lower] maps
    characters one by one except for the Greek final sigma, so the
    interpreter's tables have this property. *)
Definition keyword_stable (U : Unicode) : Prop :=
  forall k pre s post,
    In k pnr_context_keywords ->
    contains (codes k) (lower U s) = true ->
    contains (codes k) (lower U (pre ++ s ++ post)) = true.

(** Insertion of a span into a list ordered by [start]. *)
Fixpoint insert_by_start (r : RecognizerResult) (l : list RecognizerResult)
    : list RecognizerResult :=
  match l with
  | [] => [r]
  | x :: rest =>
      if (start r <=? start x)%nat then r :: l
      else x :: insert_by_start r rest
  end.

Definition sorted_by_start (l : list RecognizerResult) : list RecognizerResult :=
  fold_right insert_by_start [] l.

(** [end[i] <= start[i+1]] for all neighbours. *)
Fixpoint ends_before_next (l : list RecognizerResult) : bool :=
  match l with
  | [] => true
  | a :: rest =>
      match rest with
      | [] => true
      | b :: _ => (end_ a <=? start b)%nat && ends_before_next rest
      end
  end.

(** The non-overlap property of a span list: once sorted by start, every
    span ends before the next one starts. *)
Definition non_overlapping (l : list RecognizerResult) : bool :=
  ends_before_next (sorted_by_start l).

(** Two spans that [is_overlap] does not report. *)
Definition disjoint (a b : RecognizerResult) : Prop := overlaps a b = false.

Definition operators : list (string * operator) :=
  anonymizer_operators
  ++ [("ORGANIZATION", Keep); ("LOCATION", Keep); ("GPE", Keep); ("NRP", Keep)]%string.

Section WithEnv.
Variable E : Env.
Let U := unicode E.

Definition blacklisted (entity_text : str) : bool :=
  in_words (upper U entity_text) pnr_blacklist.

(** Alphabetic and not fully uppercase. *)
Definition mixed_case_word (entity_text : str) : bool :=
  isalpha U entity_text && negb (isupper U entity_text).

Definition has_digit (entity_text : str) : bool :=
  existsb (c_isdigit U) entity_text.

(** The 30 characters before [start], the candidate, and the 30 characters
    after [end], cut at the ends of the text. *)
Definition window (text : str) (start_ end__ : nat) : str :=
  slice text (start_ - 30) (Nat.min (List.length text) (end__ + 30)).

Definition keyword_in_window (text : str) (start_ end__ : nat) : bool :=
  existsb (fun k => contains (codes k) (lower U (window text start_ end__)))
          pnr_context_keywords.

(** The first of month-day-year, day-month-year, year-month-day that gives
    a date. *)
Definition first_strict (s : str) : option datetime :=
  match strptime U s MDY with
  | Ok dt => Some dt
  | Raise _ =>
      match strptime U s DMY with
      | Ok dt => Some dt
      | Raise _ =>
          match strptime U s YMD with
          | Ok dt => Some dt
          | Raise _ => None
          end
      end
  end.

(** The date the classifier works with: the strict parse for a string of
    eight digits, the lenient parser on the string with its white space
    normalized for any other. *)
Definition parsed_date (s : str) : option datetime :=
  if is_eight_digits U s then first_strict s
  else match parser_parse E (strip (collapse_spaces s)) with
       | Ok dt => Some dt
       | Raise _ => None
       end.

(** After 1900 and more than two years before the current year. *)
Definition dob_year (y : Z) : bool := ((1900 <? y) && (2 <? now_year E - y))%Z.

Definition classify (parsed : option datetime) : bool :=
  match parsed with
  | Some dt => dob_year (year dt)
  | None => false
  end.

(** The text a candidate covers, as the loop reads it. *)
Definition matched_text (text : str) (res : RecognizerResult) : str :=
  strip (slice text (start res) (end_ res)).

Definition dob_flag (s : str) : bool :=
  match is_likely_dob E s with Ok b => b | Raise _ => false end.

(** A single token that is one of the common words, with a score under
    0.6. *)
Definition weak_common_word (text : str) (res : RecognizerResult) : bool :=
  (List.length (split_ws (matched_text text res)) =? 1)%nat
  && in_words (lower U (matched_text text res)) common_name_words
  && Qltb (score res) (6 # 10).

(** Whether the loop keeps a candidate. *)
Definition passes (text : str) (res : RecognizerResult) : bool :=
  if (entity_type res =? "DATE_TIME")%string then dob_flag (matched_text text res)
  else if (entity_type res =? "PNR")%string then
    is_valid_pnr E text (matched_text text res) (start res) (end_ res)
  else if (entity_type res =? "Flight Number")%string then
    is_valid_flight_number E (matched_text text res)
  else if (entity_type res =? "Frequent Flyer")%string then
    is_valid_frequent_flyer E (matched_text text res)
    && existsb (fun k => contains (codes k) (snippet E text (start res) (end_ res)))
               ff_context_keywords
  else if (entity_type res =? "PERSON")%string then negb (weak_common_word text res)
  else true.

End WithEnv.

(** An environment whose analyzer call fails, as spaCy does on a text over
    its length limit. *)
Definition failing_analyzer_env : Env := {|
  unicode := ascii_tables;
  analyzer_analyze := fun _ => Raise ValueError;
  hanlp_ner := None;
  parser_parse := fun _ => Raise (OtherException "ParserError");
  now_year := 2026%Z;
  anonymize := fun text _ _ => Ok text
|}.

(** An environment whose anonymizer fails. *)
Definition failing_anonymizer_env : Env := {|
  unicode := ascii_tables;
  analyzer_analyze := fun _ => Ok [];
  hanlp_ner := None;
  parser_parse := fun _ => Raise (OtherException "ParserError");
  now_year := 2026%Z;
  anonymize := fun _ _ _ => Raise (OtherException "InvalidParamError")
|}.

(** An environment whose analyzer reports "May" as a person with score
    0.6. *)
Definition may_env : Env := {|
  unicode := ascii_tables;
  analyzer_analyze := fun _ => Ok [mkResult "PERSON" 0 3 (6 # 10)];
  hanlp_ner := None;
  parser_parse := fun _ => Raise (OtherException "ParserError");
  now_year := 2026%Z;
  anonymize := fun text _ _ => Ok text
|}.

(** The candidates of the examples. *)
Definition ouyang_85 : RecognizerResult := mkResult "PERSON" 0 11 (85 # 100).
Definition ouyang_90 : RecognizerResult := mkResult "PERSON" 0 11 (9 # 10).
Definition may_person : RecognizerResult := mkResult "PERSON" 0 3 (6 # 10).

Definition cn_mobile_hit : phone_hit :=
  {| ph_text := codes "13800138000"; ph_start := 7; ph_end := 18;
     ph_type := "PHONE_NUMBER"; ph_score := 95 # 100; ph_region := "CN" |}.

End Spec.

(** ** Further specification-side definitions *)

Module Spec2.
Import Strptime AirlinePIIRedactor InternationalPhoneRecognizer.

(** The bounds of a span in [text]: not empty and inside the text. *)
Definition in_bounds (text : str) (r : RecognizerResult) : Prop :=
  start r < end_ r /\ end_ r <= List.length text.

(** What a phone pattern can match: ASCII digits and the separators that
    [analyze] strips. *)
Definition phone_char (c : char) : bool := re_09 c || is_separator c.

(** The ideographic range of the Chinese-name pattern. *)
Definition cjk (c : char) : bool := in_range 11904 40959 c.

Definition nonspace (c : char) : bool := negb (isspace c).

(** The character before a position: the last one of the text read so
    far, or [prev] when nothing was read. *)
Definition prev_of (prev : option char) (pre : str) : option char :=
  match rev pre with
  | [] => prev
  | c :: _ => Some c
  end.

(** What the two-capitalized-words pattern can match: ASCII letters and
    white space. *)
Definition name_char (c : char) : bool := re_AZ c || re_az c || isspace c.

(** Every character a match of [r] may contain is in [P]. *)
Definition within (P : char -> bool) (r : regex) : Prop :=
  forall c, chars_of r c = true -> P c = true.

(** The two spans share a character position. *)
Definition share_position (a b : RecognizerResult) : Prop :=
  exists i, start a <= i < end_ a /\ start b <= i < end_ b.

(** A string the normalizer has nothing to do on. *)
Definition tidy (s : str) : bool :=
  Normalizer.adj_free Normalizer.alnum_then_open s
  && Normalizer.adj_free Normalizer.close_then_alnum s
  && Spec.only_plain_spaces s
  && Normalizer.adj_free Normalizer.both_space s
  && Spec.starts_nonspace s
  && Spec.starts_nonspace (rev s).

Section WithEnv.
Variable E : Env.

(** The candidates [redact] collects besides those of the analyzer, in
    collection order. *)
Definition own_candidates (text : str) : list RecognizerResult :=
  map (fun p => mkResult "PHONE_NUMBER" (ph_start p) (ph_end p) (ph_score p))
      (analyze text)
  ++ map (fun entity => mkResult "PERSON" (cn_start entity) (cn_end entity) (9 # 10))
         (filter (fun e => negb (existsb (fun c => re_az c || re_AZ c) (cn_text e)))
                 (_get_hanlp_entities E text)
          ++ _get_custom_chinese_names text)
  ++ map (fun r => mkResult "PERSON" (SurnameManager.nm_start r)
                     (SurnameManager.nm_end r) (SurnameManager.nm_score r))
         (SurnameManager.detect_names (unicode E) text)
  ++ map (fun m => mkResult "Ticket Number" (mt_start m) (mt_end m) (9 # 10))
         (finditer (sticky_ticket_pattern E) text).

(** Step 5 of [redact]: the 13-digit ticket candidates. *)
Definition sticky_tickets (text : str) : list RecognizerResult :=
  map (fun m => mkResult "Ticket Number" (mt_start m) (mt_end m) (9 # 10))
      (finditer (sticky_ticket_pattern E) text).

(** The environment with the HanLP model not loaded. *)
Definition without_hanlp : Env := {|
  unicode := unicode E;
  analyzer_analyze := analyzer_analyze E;
  hanlp_ner := None;
  parser_parse := parser_parse E;
  now_year := now_year E;
  anonymize := anonymize E
|}.

End WithEnv.


(** The candidates of further examples. *)
Definition ouyang_hit_85 : SurnameManager.name_hit :=
  {| SurnameManager.nm_text := codes "Ouyang Ming"; SurnameManager.nm_start := 0;
     SurnameManager.nm_end := 11; SurnameManager.nm_type := "PERSON";
     SurnameManager.nm_score := 85 # 100 |}.
Definition ouyang_hit_90 : SurnameManager.name_hit :=
  {| SurnameManager.nm_text := codes "Ouyang Ming"; SurnameManager.nm_start := 0;
     SurnameManager.nm_end := 11; SurnameManager.nm_type := "PERSON";
     SurnameManager.nm_score := 9 # 10 |}.
(** "李明" *)
Definition li_ming : str := [26446; 26126]%N.
Definition li_ming_hit : cn_hit :=
  {| cn_text := li_ming; cn_start := 0; cn_end := 2; cn_type := "REGEX_NAME" |}.
Definition ticket_text : str := codes "Ticket 1761234567890 is confirmed.".
Definition ticket_candidate : RecognizerResult :=
  mkResult "Ticket Number" 7 20 (9 # 10).

(** An environment with a HanLP model that fails at call time. *)
Definition failing_hanlp_env : Env := {|
  unicode := ascii_tables;
  analyzer_analyze := fun _ => Ok [];
  hanlp_ner := Some (fun _ => Raise (OtherException "RuntimeError"));
  parser_parse := fun _ => Raise (OtherException "ParserError");
  now_year := 2026%Z;
  anonymize := fun text _ _ => Ok text
|}.

End Spec2.

(* ================================================================== *)
(** * Properties *)

Module NormalizerFacts.
Import Normalizer Spec.

Lemma list_pair_ind (P : str -> Prop) :
  P [] -> (forall a, P [a]) ->
  (forall a b l, P l -> P (b :: l) -> P (a :: b :: l)) ->
  forall l, P l.
Proof.
  intros H0 H1 H2 l.
  assert (H : P l /\ forall a, P (a :: l)).
  { induction l as [|b l [IHa IHb]]; split; auto. }
  exact (proj1 H).
Qed.

Lemma adj_free_cons R a s :
  adj_free R (a :: s) =
  match hd_error s with None => true | Some b => negb (R a b) end && adj_free R s.
Proof. destruct s; reflexivity. Qed.

Lemma adj_free_tail R a s : adj_free R (a :: s) = true -> adj_free R s = true.
Proof.
  rewrite adj_free_cons. intros H. apply andb_true_iff in H. tauto.
Qed.

(** *** The three substitutions keep the first character *)

Lemma hd_sub_alnum_bracket s : hd_error (sub_alnum_bracket s) = hd_error s.
Proof.
  destruct s as [|c [|d r]]; simpl; auto.
  destruct (re_alnum c && (d =? LBRACKET)%N); reflexivity.
Qed.

Lemma hd_sub_bracket_alnum s : hd_error (sub_bracket_alnum s) = hd_error s.
Proof.
  destruct s as [|c [|d r]]; simpl; auto.
  destruct ((c =? RBRACKET)%N && re_alnum d); reflexivity.
Qed.

Lemma hd_sub_spaces s :
  hd_error (sub_spaces false s) =
  option_map (fun c => if isspace c then SPACE else c) (hd_error s).
Proof.
  destruct s as [|c r]; simpl; auto.
  destruct (isspace c); reflexivity.
Qed.

(** *** What each pass establishes *)

Lemma sub_alnum_bracket_free s :
  adj_free alnum_then_open (sub_alnum_bracket s) = true.
Proof.
  induction s as [|a|a b l IHl IHbl] using list_pair_ind; auto.
  change (sub_alnum_bracket (a :: b :: l)) with
    (if re_alnum a && (b =? LBRACKET)%N
     then a :: SPACE :: b :: sub_alnum_bracket l
     else a :: sub_alnum_bracket (b :: l)).
  destruct (re_alnum a && (b =? LBRACKET)%N) eqn:E.
  - apply andb_true_iff in E. destruct E as [_ Eb].
    apply N.eqb_eq in Eb. subst b.
    rewrite !adj_free_cons. simpl hd_error.
    rewrite IHl. unfold alnum_then_open.
    replace (SPACE =? LBRACKET)%N with false by reflexivity.
    replace (re_alnum SPACE) with false by reflexivity.
    replace (re_alnum LBRACKET) with false by reflexivity.
    rewrite andb_false_r. simpl.
    destruct (hd_error (sub_alnum_bracket l)); reflexivity.
  - rewrite adj_free_cons, hd_sub_alnum_bracket. simpl hd_error.
    rewrite IHbl. unfold alnum_then_open at 1. rewrite E. reflexivity.
Qed.

Lemma sub_bracket_alnum_free s :
  adj_free close_then_alnum (sub_bracket_alnum s) = true.
Proof.
  induction s as [|a|a b l IHl IHbl] using list_pair_ind; auto.
  change (sub_bracket_alnum (a :: b :: l)) with
    (if (a =? RBRACKET)%N && re_alnum b
     then a :: SPACE :: b :: sub_bracket_alnum l
     else a :: sub_bracket_alnum (b :: l)).
  destruct ((a =? RBRACKET)%N && re_alnum b) eqn:E.
  - apply andb_true_iff in E. destruct E as [_ Eb].
    rewrite !adj_free_cons. simpl hd_error.
    rewrite IHl. unfold close_then_alnum.
    replace (re_alnum SPACE) with false by reflexivity.
    replace (SPACE =? RBRACKET)%N with false by reflexivity.
    rewrite andb_false_r. simpl.
    assert (Hb : (b =? RBRACKET)%N = false).
    { destruct (b =? RBRACKET)%N eqn:Eq; auto.
      apply N.eqb_eq in Eq. subst b. discriminate Eb. }
    rewrite Hb. simpl.
    destruct (hd_error (sub_bracket_alnum l)); reflexivity.
  - rewrite adj_free_cons, hd_sub_bracket_alnum. simpl hd_error.
    rewrite IHbl. unfold close_then_alnum at 1. rewrite E. reflexivity.
Qed.

Lemma sub_bracket_alnum_keeps s :
  adj_free alnum_then_open s = true ->
  adj_free alnum_then_open (sub_bracket_alnum s) = true.
Proof.
  induction s as [|a|a b l IHl IHbl] using list_pair_ind; auto.
  intros H.
  pose proof (adj_free_tail _ _ _ H) as Hbl.
  pose proof (adj_free_tail _ _ _ Hbl) as Hl.
  change (sub_bracket_alnum (a :: b :: l)) with
    (if (a =? RBRACKET)%N && re_alnum b
     then a :: SPACE :: b :: sub_bracket_alnum l
     else a :: sub_bracket_alnum (b :: l)).
  destruct ((a =? RBRACKET)%N && re_alnum b) eqn:E.
  - rewrite !adj_free_cons. simpl hd_error.
    rewrite hd_sub_bracket_alnum, (IHl Hl).
    rewrite adj_free_cons in Hbl. apply andb_true_iff in Hbl.
    destruct Hbl as [Hh _]. rewrite Hh.
    unfold alnum_then_open.
    replace (SPACE =? LBRACKET)%N with false by reflexivity.
    replace (re_alnum SPACE) with false by reflexivity.
    rewrite andb_false_r. reflexivity.
  - rewrite adj_free_cons, hd_sub_bracket_alnum. simpl hd_error.
    rewrite (IHbl Hbl).
    rewrite adj_free_cons in H. simpl hd_error in H.
    apply andb_true_iff in H. destruct H as [Hh _]. rewrite Hh. reflexivity.
Qed.

(** A relation that never holds next to a space survives the white space
    pass: the pass only brings spaces next to characters. *)
Lemma sub_spaces_keeps R :
  (forall x, R x SPACE = false) -> (forall y, R SPACE y = false) ->
  forall s b, adj_free R s = true -> adj_free R (sub_spaces b s) = true.
Proof.
  intros Hl Hr s. induction s as [|c r IH]; intros b H; auto.
  pose proof (adj_free_tail _ _ _ H) as Ht.
  simpl. destruct (isspace c) eqn:Ec.
  - destruct b; [now apply IH|].
    rewrite adj_free_cons, (IH true Ht).
    destruct (hd_error (sub_spaces true r)); [rewrite Hr|]; reflexivity.
  - rewrite adj_free_cons, (IH false Ht), hd_sub_spaces.
    rewrite adj_free_cons in H. apply andb_true_iff in H. destruct H as [Hh _].
    destruct r as [|d r']; auto. simpl in *.
    destruct (isspace d); [rewrite Hl|rewrite Hh]; reflexivity.
Qed.

Lemma sub_spaces_plain s b : only_plain_spaces (sub_spaces b s) = true.
Proof.
  revert b. induction s as [|c r IH]; intros b; auto.
  simpl. destruct (isspace c) eqn:Ec.
  - destruct b; [apply IH|]. simpl. apply IH.
  - simpl. rewrite Ec. simpl. apply IH.
Qed.

Lemma sub_spaces_single s b :
  adj_free both_space (sub_spaces b s) = true /\
  (b = true -> starts_nonspace (sub_spaces b s) = true).
Proof.
  revert b. induction s as [|c r IH]; intros b; [split; auto|].
  simpl. destruct (isspace c) eqn:Ec.
  - destruct b; [apply IH|]. split; [|discriminate].
    destruct (IH true) as [Ha Hs]. specialize (Hs eq_refl).
    rewrite adj_free_cons, Ha.
    destruct (sub_spaces true r) as [|d t]; auto.
    simpl in *. unfold both_space. simpl.
    apply negb_true_iff in Hs. rewrite Hs. reflexivity.
  - split; [|intros _; simpl; now rewrite Ec].
    destruct (IH false) as [Ha _].
    rewrite adj_free_cons, Ha. unfold both_space. rewrite Ec.
    destruct (hd_error (sub_spaces false r)); reflexivity.
Qed.

(** *** Stripping *)

Lemma lstrip_starts_nonspace s : starts_nonspace (lstrip s) = true.
Proof.
  induction s as [|c r IH]; auto.
  simpl. destruct (isspace c) eqn:Ec; auto. simpl. now rewrite Ec.
Qed.

Lemma lstrip_fix s : starts_nonspace s = true -> lstrip s = s.
Proof.
  destruct s as [|c r]; auto. simpl. intros H.
  apply negb_true_iff in H. now rewrite H.
Qed.

Lemma lstrip_adj_free R s : adj_free R s = true -> adj_free R (lstrip s) = true.
Proof.
  induction s as [|c r IH]; auto. intros H.
  simpl. destruct (isspace c); auto.
  apply IH. eapply adj_free_tail; eauto.
Qed.

Lemma lstrip_plain s : only_plain_spaces s = true -> only_plain_spaces (lstrip s) = true.
Proof.
  induction s as [|c r IH]; auto. intros H.
  simpl. destruct (isspace c); auto.
  apply IH. simpl in H. apply andb_true_iff in H. tauto.
Qed.

Lemma rstrip_cons c r :
  rstrip (c :: r) = if forallb isspace (c :: r) then [] else c :: rstrip r.
Proof. reflexivity. Qed.

Lemma hd_rstrip s : rstrip s = [] \/ hd_error (rstrip s) = hd_error s.
Proof.
  destruct s as [|c r]; auto.
  rewrite rstrip_cons. destruct (forallb isspace (c :: r)); auto.
Qed.

Lemma rstrip_starts_nonspace s :
  starts_nonspace s = true -> starts_nonspace (rstrip s) = true.
Proof.
  destruct s as [|c r]; auto.
  rewrite rstrip_cons. destruct (forallb isspace (c :: r)); auto.
Qed.

Lemma rstrip_adj_free R s : adj_free R s = true -> adj_free R (rstrip s) = true.
Proof.
  induction s as [|c r IH]; auto. intros H.
  rewrite rstrip_cons. destruct (forallb isspace (c :: r)); auto.
  rewrite adj_free_cons, (IH (adj_free_tail _ _ _ H)).
  rewrite adj_free_cons in H. apply andb_true_iff in H. destruct H as [Hh _].
  destruct (hd_rstrip r) as [E|E]; rewrite E; auto.
  now rewrite Hh.
Qed.

Lemma rstrip_plain s : only_plain_spaces s = true -> only_plain_spaces (rstrip s) = true.
Proof.
  induction s as [|c r IH]; auto. intros H.
  rewrite rstrip_cons. destruct (forallb isspace (c :: r)); auto.
  simpl in *. apply andb_true_iff in H. destruct H as [Hc Hr].
  rewrite Hc. simpl. auto.
Qed.

Lemma rstrip_not_all_space s :
  forallb isspace s = false -> forallb isspace (rstrip s) = false.
Proof.
  induction s as [|c r IH]; auto. intros H.
  rewrite rstrip_cons, H. simpl in *.
  destruct (isspace c); auto.
Qed.

Lemma rstrip_idem s : rstrip (rstrip s) = rstrip s.
Proof.
  induction s as [|c r IH]; auto.
  rewrite rstrip_cons. destruct (forallb isspace (c :: r)) eqn:E; auto.
  rewrite rstrip_cons, IH.
  assert (H : forallb isspace (c :: rstrip r) = false).
  { simpl in *. destruct (isspace c); auto. now apply rstrip_not_all_space. }
  now rewrite H.
Qed.

Lemma strip_idem s : strip (strip s) = strip s.
Proof.
  unfold strip.
  rewrite (lstrip_fix (rstrip (lstrip s))).
  - apply rstrip_idem.
  - apply rstrip_starts_nonspace, lstrip_starts_nonspace.
Qed.

(** *** Fixed points of the three substitutions *)

Lemma sub_alnum_bracket_fix s :
  adj_free alnum_then_open s = true -> sub_alnum_bracket s = s.
Proof.
  induction s as [|c r IH]; auto. intros H.
  destruct r as [|d r']; auto.
  pose proof (adj_free_tail _ _ _ H) as Ht.
  rewrite adj_free_cons in H. simpl hd_error in H.
  apply andb_true_iff in H. destruct H as [Hh _].
  apply negb_true_iff in Hh. unfold alnum_then_open in Hh.
  change (sub_alnum_bracket (c :: d :: r')) with
    (if re_alnum c && (d =? LBRACKET)%N
     then c :: SPACE :: d :: sub_alnum_bracket r'
     else c :: sub_alnum_bracket (d :: r')).
  rewrite Hh, (IH Ht). reflexivity.
Qed.

Lemma sub_bracket_alnum_fix s :
  adj_free close_then_alnum s = true -> sub_bracket_alnum s = s.
Proof.
  induction s as [|c r IH]; auto. intros H.
  destruct r as [|d r']; auto.
  pose proof (adj_free_tail _ _ _ H) as Ht.
  rewrite adj_free_cons in H. simpl hd_error in H.
  apply andb_true_iff in H. destruct H as [Hh _].
  apply negb_true_iff in Hh. unfold close_then_alnum in Hh.
  change (sub_bracket_alnum (c :: d :: r')) with
    (if (c =? RBRACKET)%N && re_alnum d
     then c :: SPACE :: d :: sub_bracket_alnum r'
     else c :: sub_bracket_alnum (d :: r')).
  rewrite Hh, (IH Ht). reflexivity.
Qed.

Lemma sub_spaces_fix s :
  only_plain_spaces s = true -> adj_free both_space s = true ->
  sub_spaces false s = s.
Proof.
  induction s as [|c r IH]; auto. intros Hp Ha.
  pose proof (adj_free_tail _ _ _ Ha) as Hat.
  simpl in Hp. apply andb_true_iff in Hp. destruct Hp as [Hc Hpr].
  specialize (IH Hpr Hat).
  simpl. destruct (isspace c) eqn:Ec.
  - simpl in Hc. apply N.eqb_eq in Hc. subst c. f_equal.
    destruct r as [|d r']; auto.
    rewrite adj_free_cons in Ha. simpl hd_error in Ha.
    apply andb_true_iff in Ha. destruct Ha as [Hh _].
    apply negb_true_iff in Hh. unfold both_space in Hh. rewrite Ec in Hh.
    simpl in Hh. simpl in IH |- *. rewrite Hh in IH |- *. exact IH.
  - now rewrite IH.
Qed.

(** *** The substitutions of the matcher are the scans *)

Lemma slice_one pre a r :
  slice (pre ++ a :: r) (List.length pre) (S (List.length pre)) = [a].
Proof.
  unfold slice. replace (S (List.length pre) - List.length pre)%nat with 1%nat by lia.
  rewrite skipn_app, Nat.sub_diag, skipn_all. reflexivity.
Qed.

Lemma slice_two pre a b r :
  slice (pre ++ a :: b :: r) (S (List.length pre)) (S (S (List.length pre))) = [b].
Proof.
  replace (pre ++ a :: b :: r) with ((pre ++ [a]) ++ b :: r)
    by (now rewrite <- app_assoc).
  replace (S (List.length pre)) with (List.length (pre ++ [a]))
    by (rewrite length_app; simpl; lia).
  apply slice_one.
Qed.

Lemma spaced_groups_pair pre a b r :
  spaced_groups (pre ++ a :: b :: r)
    {| mt_start := List.length pre; mt_end := S (S (List.length pre));
       mt_groups := [(2, (S (List.length pre), S (S (List.length pre))));
                     (1, (List.length pre, S (List.length pre)))] |}
  = [a; SPACE; b].
Proof.
  unfold spaced_groups, group. cbn [mt_groups group_span Nat.eqb fst snd].
  now rewrite slice_one, slice_two.
Qed.

Lemma match_here_alnum_bracket pos prev a b l :
  match_here alnum_bracket_pattern pos prev (a :: b :: l) =
  if re_alnum a && (b =? LBRACKET)%N
  then Some {| mt_start := pos; mt_end := S (S pos);
               mt_groups := [(2, (S pos, S (S pos))); (1, (pos, S pos))] |}
  else None.
Proof.
  unfold match_here, alnum_bracket_pattern. cbn.
  destruct (re_alnum a); cbn; [destruct (b =? LBRACKET)%N|]; reflexivity.
Qed.

Lemma match_here_bracket_alnum pos prev a b l :
  match_here bracket_alnum_pattern pos prev (a :: b :: l) =
  if (a =? RBRACKET)%N && re_alnum b
  then Some {| mt_start := pos; mt_end := S (S pos);
               mt_groups := [(2, (S pos, S (S pos))); (1, (pos, S pos))] |}
  else None.
Proof.
  unfold match_here, bracket_alnum_pattern. cbn.
  destruct (a =? RBRACKET)%N; cbn; [destruct (re_alnum b)|]; reflexivity.
Qed.

Lemma sub_from_alnum_bracket (s : str) : forall (pre : str) prev,
  sub_from alnum_bracket_pattern (spaced_groups (pre ++ s))
           (List.length pre) prev 0 s
  = sub_alnum_bracket s.
Proof.
  induction s as [|a|a b l IHl IHbl] using list_pair_ind; intros pre prev.
  - reflexivity.
  - cbn [sub_from]. unfold match_here, alnum_bracket_pattern. cbn.
    destruct (re_alnum a); reflexivity.
  - cbn [sub_from]. rewrite match_here_alnum_bracket.
    change (sub_alnum_bracket (a :: b :: l)) with
      (if re_alnum a && (b =? LBRACKET)%N
       then a :: SPACE :: b :: sub_alnum_bracket l
       else a :: sub_alnum_bracket (b :: l)).
    destruct (re_alnum a && (b =? LBRACKET)%N).
    + cbn [mt_end].
      replace (pred (S (S (List.length pre)) - List.length pre)) with 1%nat by lia.
      cbn [sub_from]. rewrite spaced_groups_pair.
      specialize (IHl (pre ++ [a; b]) (Some b)).
      rewrite <- app_assoc, length_app in IHl. simpl in IHl.
      replace (List.length pre + 2)%nat with (S (S (List.length pre))) in IHl by lia.
      now rewrite IHl.
    + specialize (IHbl (pre ++ [a]) (Some a)).
      rewrite <- app_assoc, length_app in IHbl. simpl in IHbl.
      replace (List.length pre + 1)%nat with (S (List.length pre)) in IHbl by lia.
      now rewrite IHbl.
Qed.

Lemma sub_from_bracket_alnum (s : str) : forall (pre : str) prev,
  sub_from bracket_alnum_pattern (spaced_groups (pre ++ s))
           (List.length pre) prev 0 s
  = sub_bracket_alnum s.
Proof.
  induction s as [|a|a b l IHl IHbl] using list_pair_ind; intros pre prev.
  - reflexivity.
  - cbn [sub_from]. unfold match_here, bracket_alnum_pattern. cbn.
    destruct (a =? RBRACKET)%N; reflexivity.
  - cbn [sub_from]. rewrite match_here_bracket_alnum.
    change (sub_bracket_alnum (a :: b :: l)) with
      (if (a =? RBRACKET)%N && re_alnum b
       then a :: SPACE :: b :: sub_bracket_alnum l
       else a :: sub_bracket_alnum (b :: l)).
    destruct ((a =? RBRACKET)%N && re_alnum b).
    + cbn [mt_end].
      replace (pred (S (S (List.length pre)) - List.length pre)) with 1%nat by lia.
      cbn [sub_from]. rewrite spaced_groups_pair.
      specialize (IHl (pre ++ [a; b]) (Some b)).
      rewrite <- app_assoc, length_app in IHl. simpl in IHl.
      replace (List.length pre + 2)%nat with (S (S (List.length pre))) in IHl by lia.
      now rewrite IHl.
    + specialize (IHbl (pre ++ [a]) (Some a)).
      rewrite <- app_assoc, length_app in IHbl. simpl in IHbl.
      replace (List.length pre + 1)%nat with (S (List.length pre)) in IHbl by lia.
      now rewrite IHbl.
Qed.

(** [re.sub(r'([A-Za-z0-9])(\[)', r'\1 \2', text)] is the first scan. *)
Lemma re_sub_alnum_bracket text :
  re_sub alnum_bracket_pattern spaced_groups text = sub_alnum_bracket text.
Proof. exact (sub_from_alnum_bracket text [] None). Qed.

(** [re.sub(r'(\])([A-Za-z0-9])', r'\1 \2', text)] is the second scan. *)
Lemma re_sub_bracket_alnum text :
  re_sub bracket_alnum_pattern spaced_groups text = sub_bracket_alnum text.
Proof. exact (sub_from_bracket_alnum text [] None). Qed.

(** Greedy [\s+] with nothing after it takes the whole run. *)
Lemma rep_match_run s : forall lo st,
  (lo <= run_len s)%nat ->
  exists st',
    rep_match isspace lo None st s (fun st => Some st) = Some st' /\
    m_pos st' = (m_pos st + run_len s)%nat /\ m_groups st' = m_groups st.
Proof.
  induction s as [|c r IH]; intros lo st Hlo; simpl in Hlo.
  - assert (lo = 0%nat) by lia. subst lo. exists st. simpl. auto.
  - simpl. destruct (isspace c) eqn:Ec.
    + destruct (IH (pred lo) (advance st c r)) as (st' & -> & Hp & Hg); [lia|].
      exists st'. split; [reflexivity|]. simpl in *. split; [lia|assumption].
    + assert (lo = 0%nat) by lia. subst lo. exists st. simpl. auto.
Qed.

Lemma match_here_spaces pos prev c r :
  match_here (plus isspace) pos prev (c :: r) =
  if isspace c
  then Some {| mt_start := pos; mt_end := S pos + run_len r; mt_groups := [] |}
  else None.
Proof.
  unfold match_here, plus. cbn [rmatch m_rest].
  destruct (isspace c) eqn:Ec.
  - edestruct (@rep_match_run (c :: r) 1) as (st' & -> & Hp & Hg).
    { simpl. rewrite Ec. lia. }
    rewrite Hp, Hg. simpl. rewrite Ec. do 2 f_equal. lia.
  - simpl. now rewrite Ec.
Qed.

Lemma sub_from_spaces s : forall pos prev,
  sub_from (plus isspace) (fun _ => [SPACE]) pos prev 0 s = sub_spaces false s /\
  sub_from (plus isspace) (fun _ => [SPACE]) pos prev (run_len s) s
    = sub_spaces true s.
Proof.
  induction s as [|c r IH]; intros pos prev; [split; reflexivity|].
  assert (H0 : sub_from (plus isspace) (fun _ => [SPACE]) pos prev 0 (c :: r)
               = sub_spaces false (c :: r)).
  { cbn [sub_from]. rewrite match_here_spaces. simpl sub_spaces.
    destruct (isspace c).
    - cbn [mt_end].
      replace (pred (S pos + run_len r - pos)) with (run_len r) by lia.
      now rewrite (proj2 (IH (S pos) (Some c))).
    - now rewrite (proj1 (IH (S pos) (Some c))). }
  split; [exact H0|].
  simpl run_len. simpl sub_spaces. destruct (isspace c) eqn:Ec.
  - cbn [sub_from]. apply IH.
  - rewrite H0. simpl. now rewrite Ec.
Qed.

(** [re.sub(r'\s+', ' ', text)] is the white space scan. *)
Lemma collapse_spaces_scan text : collapse_spaces text = sub_spaces false text.
Proof. exact (proj1 (sub_from_spaces text 0 None)). Qed.

Lemma normalize_output_scan text :
  _normalize_output text
  = strip (sub_spaces false (sub_bracket_alnum (sub_alnum_bracket text))).
Proof.
  unfold _normalize_output.
  now rewrite re_sub_alnum_bracket, re_sub_bracket_alnum, collapse_spaces_scan.
Qed.

Example normalize_output_examples :
  _normalize_output (codes "Hello[NAME]and  x ") = codes "Hello [NAME] and x" /\
  _normalize_output (codes "Call[Phone]now") = codes "Call [Phone] now" /\
  _normalize_output (codes " a [b] c ") = codes "a [b] c".
Proof. vm_compute. repeat split; reflexivity. Qed.

(** C6. The output normalizer is idempotent: normalizing an already
    normalized string changes nothing.  After one pass no alphanumeric
    character stands directly before an opening bracket, none directly after
    a closing bracket, all white space is single plain spaces and none is
    left at either end, so each of the three substitutions and the strip are
    the identity on the result. *)
Theorem normalize_output_idempotent (s : str) :
  _normalize_output (_normalize_output s) = _normalize_output s.
Proof.
  rewrite !normalize_output_scan.
  set (u := sub_spaces false (sub_bracket_alnum (sub_alnum_bracket s))).
  assert (Hopen : adj_free alnum_then_open (strip u) = true).
  { apply rstrip_adj_free, lstrip_adj_free.
    apply sub_spaces_keeps; try reflexivity.
    - intros x. unfold alnum_then_open. apply andb_false_r.
    - apply sub_bracket_alnum_keeps, sub_alnum_bracket_free. }
  assert (Hclose : adj_free close_then_alnum (strip u) = true).
  { apply rstrip_adj_free, lstrip_adj_free.
    apply sub_spaces_keeps; try reflexivity.
    - intros x. unfold close_then_alnum. apply andb_false_r.
    - apply sub_bracket_alnum_free. }
  assert (Hplain : only_plain_spaces (strip u) = true).
  { apply rstrip_plain, lstrip_plain, sub_spaces_plain. }
  assert (Hsingle : adj_free both_space (strip u) = true).
  { apply rstrip_adj_free, lstrip_adj_free, sub_spaces_single. }
  rewrite (sub_alnum_bracket_fix _ Hopen), (sub_bracket_alnum_fix _ Hclose).
  rewrite (sub_spaces_fix _ Hplain Hsingle).
  apply strip_idem.
Qed.

End NormalizerFacts.

(** ** The phone recognizer *)

Module PhoneFacts.
Import InternationalPhoneRecognizer Spec.

(** Stripping removes the separators and nothing else. *)
Lemma clean_spec raw c :
  In c (clean raw) <-> In c raw /\ is_separator c = false.
Proof.
  unfold clean. rewrite filter_In, negb_true_iff. reflexivity.
Qed.

Lemma analyze_match_inv text config m h :
  In h (analyze_match text config m) ->
  accepted config (clean (group0 text m)) /\ h = hit_of text config m.
Proof.
  unfold analyze_match.
  destruct ((min_length config <=? List.length (clean (group0 text m)))
            && (List.length (clean (group0 text m)) <=? max_length config))%nat
    eqn:Hlen; simpl; [|tauto].
  apply andb_true_iff in Hlen. destruct Hlen as [Hmin Hmax].
  apply Nat.leb_le in Hmin. apply Nat.leb_le in Hmax.
  destruct (prefix_validator config) as [validator|] eqn:Hv.
  - destruct (validator (clean (group0 text m))) eqn:Hok; simpl; [|tauto].
    intros [<-|[]]. split; [|reflexivity].
    repeat split; auto. intros v Hv'. rewrite Hv in Hv'.
    injection Hv' as <-. exact Hok.
  - simpl. intros [<-|[]]. split; [|reflexivity].
    repeat split; auto. intros v Hv'. rewrite Hv in Hv'. discriminate.
Qed.

Lemma analyze_match_complete text config m :
  accepted config (clean (group0 text m)) ->
  analyze_match text config m = [hit_of text config m].
Proof.
  intros (Hmin & Hmax & Hv). unfold analyze_match.
  apply Nat.leb_le in Hmin. apply Nat.leb_le in Hmax.
  rewrite Hmin, Hmax. simpl.
  destruct (prefix_validator config) as [validator|]; [|reflexivity].
  rewrite (Hv validator eq_refl). reflexivity.
Qed.

(** C7. Every candidate the phone recognizer emits comes from a match of
    some region's pattern whose text, once spaces, hyphens, plus signs and
    parentheses are stripped, has a length within that region's
    [min_length, max_length] and is accepted by the region's prefix
    validator when there is one; the candidate carries that match's
    offsets and the region's confidence. *)
Theorem analyze_emits_only_accepted (text : str) (h : phone_hit) :
  In h (analyze text) ->
  exists config m,
    In config PHONE_PATTERNS /\
    In m (finditer (pattern config) text) /\
    accepted config (clean (group0 text m)) /\
    h = hit_of text config m /\
    ph_score h = confidence config.
Proof.
  unfold analyze. intros H.
  apply in_flat_map in H. destruct H as (config & Hc & H).
  apply in_flat_map in H. destruct H as (m & Hm & H).
  apply analyze_match_inv in H. destruct H as [Hacc ->].
  exists config, m. repeat split; auto; apply Hacc.
Qed.

(** Conversely an accepted match is emitted. *)
Lemma analyze_emits_accepted text config m :
  In config PHONE_PATTERNS ->
  In m (finditer (pattern config) text) ->
  accepted config (clean (group0 text m)) ->
  In (hit_of text config m) (analyze text).
Proof.
  intros Hc Hm Hacc. unfold analyze.
  apply in_flat_map. exists config. split; auto.
  apply in_flat_map. exists m. split; auto.
  rewrite (analyze_match_complete _ _ Hacc). now left.
Qed.

Example analyze_cn_mobile :
  analyze (codes "Mobile 13800138000 is valid") =
  [ {| ph_text := codes "13800138000"; ph_start := 7; ph_end := 18;
       ph_type := "PHONE_NUMBER"; ph_score := 95 # 100; ph_region := "CN" |} ].
Proof. vm_compute. reflexivity. Qed.

(** A number of the mainland shape with an unassigned prefix is matched by
    the pattern and dropped by the prefix validator. *)
Example analyze_cn_bad_prefix :
  analyze (codes "Mobile 14000138000 is valid") = [].
Proof. vm_compute. reflexivity. Qed.

End PhoneFacts.

(** ** The romanized-name recognizer *)

Module SurnameFacts.
Import SurnameManager.

(** C8. On "Ouyang Ming" the romanized-name recognizer returns two PERSON
    candidates for the same range [0, 11): one with score 0.85 from the
    surname loop and one with score 0.9 from the compound-surname loop.  The
    first word, lowercased, is a compound surname outside the blacklist, and
    the two candidates overlap. *)
Theorem detect_names_duplicate_spans :
  detect_names ascii_tables (codes "Ouyang Ming") =
    [ {| nm_text := codes "Ouyang Ming"; nm_start := 0; nm_end := 11;
         nm_type := "PERSON"; nm_score := 85 # 100 |};
      {| nm_text := codes "Ouyang Ming"; nm_start := 0; nm_end := 11;
         nm_type := "PERSON"; nm_score := 9 # 10 |} ]
  /\ in_words (lower ascii_tables (codes "Ouyang")) compound_surnames = true
  /\ in_words (lower ascii_tables (codes "Ouyang")) blacklist = false
  /\ AirlinePIIRedactor.overlaps
       (AirlinePIIRedactor.mkResult "PERSON" 0 11 (85 # 100))
       (AirlinePIIRedactor.mkResult "PERSON" 0 11 (9 # 10)) = true.
Proof. vm_compute. repeat split; reflexivity. Qed.

(** The same holds for every match whose first word is a compound surname
    outside the blacklist: both loops emit it. *)
Lemma detect_names_compound_twice U text m :
  In m (finditer (two_capitalized_words U) text) ->
  in_words (lower U (group text m 1)) compound_surnames = true ->
  in_words (lower U (group text m 1)) blacklist = false ->
  In (name_hit_of text m (85 # 100)) (detect_names U text) /\
  In (name_hit_of text m (9 # 10)) (detect_names U text).
Proof.
  intros Hm Hc Hb. unfold detect_names. cbv zeta. rewrite app_nil_l. split.
  - apply in_or_app. left. apply in_flat_map. exists m. split; auto.
    cbv beta zeta. unfold is_surname at 1. cbv zeta.
    rewrite Hb, Hc, orb_true_r. now left.
  - apply in_or_app. right. apply in_flat_map. exists m. split; auto.
    cbv beta. rewrite Hc. now left.
Qed.

End SurnameFacts.

(** ** Strings *)

Module StrFacts.

Lemma infix_refl a : infix a a.
Proof. exists [], []. now rewrite app_nil_r. Qed.

Lemma infix_trans a b c : infix a b -> infix b c -> infix a c.
Proof.
  intros (p1 & q1 & ->) (p2 & q2 & ->).
  exists (p2 ++ p1), (q1 ++ q2). now rewrite <- !app_assoc.
Qed.

Lemma lstrip_suffix s : exists pre, s = pre ++ lstrip s.
Proof.
  induction s as [|c r [pre IH]]; [now exists []|].
  simpl. destruct (isspace c).
  - exists (c :: pre). simpl. now rewrite <- IH.
  - now exists [].
Qed.

Lemma rstrip_prefix s : exists post, s = rstrip s ++ post.
Proof.
  induction s as [|c r [post IH]]; [now exists []|].
  change (rstrip (c :: r)) with
    (if forallb isspace (c :: r) then [] else c :: rstrip r).
  destruct (forallb isspace (c :: r)).
  - now exists (c :: r).
  - exists post. simpl. now rewrite <- IH.
Qed.

Lemma strip_infix s : infix (strip s) s.
Proof.
  unfold strip. destruct (lstrip_suffix s) as [pre Hp].
  destruct (rstrip_prefix (lstrip s)) as [post Hq].
  exists pre, post. now rewrite <- Hq.
Qed.

Lemma firstn_add {A} (a b : nat) (l : list A) :
  firstn (a + b) l = firstn a l ++ firstn b (skipn a l).
Proof.
  revert l. induction a as [|a IH]; intros l; [reflexivity|].
  destruct l as [|x l]; simpl.
  - now rewrite firstn_nil.
  - now rewrite IH.
Qed.

Lemma skipn_add {A} (a b : nat) (l : list A) :
  skipn (a + b) l = skipn b (skipn a l).
Proof.
  revert l. induction a as [|a IH]; intros l; [reflexivity|].
  destruct l as [|x l]; simpl; [now rewrite skipn_nil|apply IH].
Qed.

(** A slice lies inside every slice that starts no later and ends no
    earlier, or ends at the end of the text. *)
Lemma slice_infix (l : str) (i' i j j' : nat) :
  (i' <= i)%nat -> (j <= j' \/ List.length l <= j')%nat ->
  infix (slice l i j) (slice l i' j').
Proof.
  intros Hi Hj. unfold slice.
  destruct (Nat.le_gt_cases j i) as [Hji|Hij].
  { replace (j - i)%nat with 0%nat by lia. simpl.
    exists (firstn (j' - i') (skipn i' l)), []. now rewrite app_nil_r. }
  set (X := skipn i' l).
  assert (HY : skipn i l = skipn (i - i') X).
  { unfold X. rewrite <- skipn_add. f_equal. lia. }
  rewrite HY. set (Y := skipn (i - i') X).
  destruct Hj as [Hj|Hj].
  - replace (j' - i')%nat with ((i - i') + ((j - i) + (j' - j)))%nat by lia.
    rewrite firstn_add. fold Y. rewrite firstn_add.
    now exists (firstn (i - i') X), (firstn (j' - j) (skipn (j - i) Y)).
  - rewrite (firstn_all2 (n := (j' - i')%nat) X).
    2:{ unfold X. rewrite length_skipn. lia. }
    exists (firstn (i - i') X), (skipn (j - i) Y).
    unfold Y. now rewrite firstn_skipn, firstn_skipn.
Qed.

Lemma starts_with_app k s post :
  starts_with k s = true -> starts_with k (s ++ post) = true.
Proof.
  revert s. induction k as [|a k IH]; intros s H; [reflexivity|].
  destruct s as [|b s]; [discriminate|]. simpl in *.
  apply andb_true_iff in H. destruct H as [-> H]. simpl. auto.
Qed.

Lemma contains_cons k a s : contains k s = true -> contains k (a :: s) = true.
Proof. intros H. simpl. rewrite H. apply orb_true_r. Qed.

Lemma contains_app_r k s post :
  contains k s = true -> contains k (s ++ post) = true.
Proof.
  induction s as [|b s IH]; intros H.
  - simpl in H. rewrite orb_false_r in H.
    destruct k; [|discriminate]. destruct post; reflexivity.
  - simpl in H. apply orb_true_iff in H. destruct H as [H|H].
    + change ((b :: s) ++ post) with (b :: (s ++ post)).
      apply (starts_with_app _ _ post) in H.
      change (contains k (b :: s ++ post))
        with (starts_with k (b :: s ++ post) || contains k (s ++ post)).
      change ((b :: s) ++ post) with (b :: s ++ post) in H.
      now rewrite H.
    + apply contains_cons. auto.
Qed.

Lemma contains_app_l k pre s :
  contains k s = true -> contains k (pre ++ s) = true.
Proof.
  intros H. induction pre as [|a pre IH]; auto.
  simpl app. now apply contains_cons.
Qed.

(** [k in a] and [a] inside [b] give [k in b]. *)
Lemma contains_infix k a b :
  infix a b -> contains k a = true -> contains k b = true.
Proof.
  intros (pre & post & ->) H.
  now apply contains_app_l, contains_app_r.
Qed.

End StrFacts.

(** ** The booking-reference validator *)

Module ValidatorFacts.
Import AirlinePIIRedactor StrFacts Spec.

Lemma ascii_keyword_stable : keyword_stable ascii_tables.
Proof.
  intros k pre s post _ H. simpl lower in *.
  rewrite !map_app. now apply contains_app_l, contains_app_r.
Qed.

Section PNR.
Variable E : Env.
Local Abbreviation U := (unicode E).

Lemma is_valid_pnr_eq text entity_text start_ end__ :
  is_valid_pnr E text entity_text start_ end__
  = if blacklisted E entity_text then false
    else if mixed_case_word E entity_text then false
    else if has_digit E entity_text then true
    else keyword_in_window E text start_ end__.
Proof. reflexivity. Qed.

(** C4. The decision of [is_valid_pnr], in order: a literal whose
    uppercase form is blacklisted is rejected; otherwise an alphabetic
    literal that is not fully uppercase is rejected; otherwise a literal
    with a digit is accepted; otherwise the answer is whether a context
    keyword occurs in the lowercased window of 30 characters on each side
    of the candidate (in that last case an alphabetic literal is fully
    uppercase). *)
Theorem is_valid_pnr_decision (text entity_text : str) (start_ end__ : nat) :
  (blacklisted E entity_text = true ->
   is_valid_pnr E text entity_text start_ end__ = false) /\
  (blacklisted E entity_text = false -> mixed_case_word E entity_text = true ->
   is_valid_pnr E text entity_text start_ end__ = false) /\
  (blacklisted E entity_text = false -> mixed_case_word E entity_text = false ->
   has_digit E entity_text = true ->
   is_valid_pnr E text entity_text start_ end__ = true) /\
  (blacklisted E entity_text = false -> mixed_case_word E entity_text = false ->
   has_digit E entity_text = false ->
   is_valid_pnr E text entity_text start_ end__
     = keyword_in_window E text start_ end__ /\
   (isalpha U entity_text = true -> isupper U entity_text = true)).
Proof.
  rewrite is_valid_pnr_eq. split; [|split; [|split]].
  - intros ->. reflexivity.
  - intros -> ->. reflexivity.
  - intros -> -> ->. reflexivity.
  - intros Hb Hm Hd. split.
    + now rewrite Hb, Hm, Hd.
    + intros Ha. unfold mixed_case_word in Hm. rewrite Ha in Hm. simpl in Hm.
      now apply negb_false_iff in Hm.
Qed.

(** C9. The window of [is_valid_pnr] contains the candidate itself.  So an
    alphabetic, fully uppercase candidate outside the blacklist whose own
    lowercase form contains a context keyword is accepted, whatever the
    rest of the text is. *)
Theorem keyword_inside_candidate_accepts (text : str) (start_ end__ : nat) :
  keyword_stable U ->
  isalpha U (strip (slice text start_ end__)) = true ->
  isupper U (strip (slice text start_ end__)) = true ->
  blacklisted E (strip (slice text start_ end__)) = false ->
  (exists k, In k pnr_context_keywords /\
             contains (codes k) (lower U (strip (slice text start_ end__))) = true) ->
  infix (strip (slice text start_ end__)) (window text start_ end__) /\
  is_valid_pnr E text (strip (slice text start_ end__)) start_ end__ = true.
Proof.
  intros Hstable Halpha Hupper Hblack (k & Hk & Hin).
  assert (Hwin : infix (strip (slice text start_ end__)) (window text start_ end__)).
  { eapply infix_trans; [apply strip_infix|].
    unfold window. apply slice_infix; lia. }
  split; [exact Hwin|].
  assert (Hmixed : mixed_case_word E (strip (slice text start_ end__)) = false).
  { unfold mixed_case_word. now rewrite Halpha, Hupper. }
  rewrite is_valid_pnr_eq, Hblack, Hmixed.
  destruct (has_digit E (strip (slice text start_ end__))); [reflexivity|].
  unfold keyword_in_window. apply existsb_exists. exists k. split; auto.
  destruct Hwin as (pre & post & ->). now apply Hstable.
Qed.

End PNR.

(** "PREFER" is not blacklisted and contains "ref": accepted with no
    booking vocabulary around it; "ABCDEF" in the same place is not. *)
Example prefer_is_accepted :
  is_valid_pnr ascii_env (codes "I PREFER tea") (codes "PREFER") 2 8 = true /\
  is_valid_pnr ascii_env (codes "I ABCDEF tea") (codes "ABCDEF") 2 8 = false.
Proof. vm_compute. split; reflexivity. Qed.

End ValidatorFacts.

(** ** The date-of-birth classifier *)

Module DobFacts.
Import AirlinePIIRedactor Strptime Spec.

Lemma build_raises m d y e : build m d y = Raise e -> e = ValueError.
Proof.
  unfold build, make_date.
  destruct m as [m|], d as [d|], y as [y|]; try congruence.
  destruct ((1 <=? y) && (y <=? 9999) && (1 <=? m) && (m <=? 12)
            && (1 <=? d) && (d <=? days_in_month y m))%Z; congruence.
Qed.

(** [strptime] raises nothing but [ValueError]. *)
Lemma strptime_raises U s fmt e : strptime U s fmt = Raise e -> e = ValueError.
Proof.
  unfold strptime.
  destruct s as [|c1 [|c2 [|c3 [|c4 [|c5 [|c6 [|c7 [|c8 [|c9 r]]]]]]]]];
    try congruence.
  destruct fmt; apply build_raises.
Qed.

(** A date [strptime] returns is a date of the calendar. *)
Lemma strptime_valid U s fmt dt :
  strptime U s fmt = Ok dt ->
  (1 <= year dt <= 9999 /\ 1 <= month dt <= 12 /\
   1 <= day dt <= days_in_month (year dt) (month dt))%Z.
Proof.
  assert (Hb : forall m d y, build m d y = Ok dt ->
    (1 <= year dt <= 9999 /\ 1 <= month dt <= 12 /\
     1 <= day dt <= days_in_month (year dt) (month dt))%Z).
  { intros m d y. unfold build, make_date.
    destruct m as [m|], d as [d|], y as [y|]; try congruence.
    destruct ((1 <=? y) && (y <=? 9999) && (1 <=? m) && (m <=? 12)
              && (1 <=? d) && (d <=? days_in_month y m))%Z eqn:Hc;
      [|congruence].
    intros [= <-]. simpl.
    repeat (apply andb_true_iff in Hc; destruct Hc as [Hc ?]).
    repeat match goal with H : (_ <=? _)%Z = true |- _ => apply Z.leb_le in H end.
    lia. }
  unfold strptime.
  destruct s as [|c1 [|c2 [|c3 [|c4 [|c5 [|c6 [|c7 [|c8 [|c9 r]]]]]]]]];
    try congruence.
  destruct fmt; apply Hb.
Qed.

Section Dob.
Variable E : Env.
Local Abbreviation U := (unicode E).

Lemma year_policy dt :
  (if (year dt >? now_year E)%Z then Ok false
   else if (now_year E - year dt <=? 2)%Z then Ok false
   else if ((1900 <? year dt) && (year dt <=? now_year E - 2))%Z then Ok true
   else Ok false) = Ok (dob_year E (year dt)).
Proof.
  unfold dob_year.
  destruct (Z.gtb_spec (year dt) (now_year E));
  destruct (Z.leb_spec (now_year E - year dt) 2);
  destruct (Z.ltb_spec 1900 (year dt));
  destruct (Z.leb_spec (year dt) (now_year E - 2));
  destruct (Z.ltb_spec 2 (now_year E - year dt));
  simpl; try reflexivity; lia.
Qed.

Lemma strict_chain s :
  try_except is_ValueError
    (dt <- strptime U s MDY ;; Ok (Some dt))
    (fun _ =>
       try_except is_ValueError
         (dt <- strptime U s DMY ;; Ok (Some dt))
         (fun _ =>
            try_except is_ValueError
              (dt <- strptime U s YMD ;; Ok (Some dt))
              (fun _ => Ok None)))
  = Ok (first_strict E s).
Proof.
  unfold first_strict.
  destruct (strptime U s MDY) as [d1|e1] eqn:H1; simpl; [reflexivity|].
  rewrite (strptime_raises _ _ _ H1). simpl.
  destruct (strptime U s DMY) as [d2|e2] eqn:H2; simpl; [reflexivity|].
  rewrite (strptime_raises _ _ _ H2). simpl.
  destruct (strptime U s YMD) as [d3|e3] eqn:H3; simpl; [reflexivity|].
  rewrite (strptime_raises _ _ _ H3). reflexivity.
Qed.

(** The body of the [try] either classifies the parsed date or raises what
    the lenient parser raised. *)
Lemma dob_try_body_eq s :
  dob_try_body E s =
  if is_eight_digits U s then Ok (classify E (first_strict E s))
  else match parser_parse E (strip (collapse_spaces s)) with
       | Ok dt => Ok (dob_year E (year dt))
       | Raise e => Raise e
       end.
Proof.
  unfold dob_try_body.
  destruct (is_eight_digits U s).
  - rewrite strict_chain. simpl.
    destruct (first_strict E s) as [dt|]; [apply year_policy|reflexivity].
  - destruct (parser_parse E (strip (collapse_spaces s))) as [dt|e]; simpl;
      [apply year_policy|reflexivity].
Qed.

Lemma is_likely_dob_eq s : is_likely_dob E s = Ok (classify E (parsed_date E s)).
Proof.
  unfold is_likely_dob, parsed_date. rewrite dob_try_body_eq.
  destruct (is_eight_digits U s); [reflexivity|].
  destruct (parser_parse E (strip (collapse_spaces s))); reflexivity.
Qed.

(** C3, amended.  A string of eight digits is parsed strictly as
    month-day-year, then day-month-year, then year-month-day, the first
    valid calendar date being taken, and is not a date of birth when none
    is valid; any other string goes to the lenient parser; text that does
    not parse is not a date of birth.  A parsed date is a date of birth
    exactly when its year is after 1900 and more than two years before the
    current year. *)
Theorem dob_classification (s : str) :
  is_likely_dob E s = Ok (classify E (parsed_date E s)) /\
  (forall y, dob_year E y = true <-> (1900 < y /\ now_year E - y > 2)%Z).
Proof.
  split; [apply is_likely_dob_eq|].
  intros y. unfold dob_year.
  rewrite andb_true_iff, !Z.ltb_lt. lia.
Qed.

(** C10. [is_likely_dob] returns a boolean for every string and never
    raises: whatever is raised inside, by the lenient parser or by the
    strict parses of an eight-digit string, the value is [False]. *)
Theorem is_likely_dob_total (s : str) :
  is_likely_dob E s
    = Ok (match dob_try_body E s with Ok b => b | Raise _ => false end) /\
  (forall e, dob_try_body E s = Raise e -> is_likely_dob E s = Ok false) /\
  (forall e, is_eight_digits U s = false ->
             parser_parse E (strip (collapse_spaces s)) = Raise e ->
             is_likely_dob E s = Ok false) /\
  (is_eight_digits U s = true ->
   (forall fmt, exists e, strptime U s fmt = Raise e) ->
   is_likely_dob E s = Ok false).
Proof.
  split; [|split; [|split]].
  - unfold is_likely_dob. destruct (dob_try_body E s); reflexivity.
  - intros e H. unfold is_likely_dob. now rewrite H.
  - intros e H8 Hp. rewrite is_likely_dob_eq. unfold parsed_date.
    now rewrite H8, Hp.
  - intros H8 Hall. rewrite is_likely_dob_eq. unfold parsed_date, first_strict.
    rewrite H8.
    destruct (Hall MDY) as [e1 ->]. destruct (Hall DMY) as [e2 ->].
    destruct (Hall YMD) as [e3 ->]. reflexivity.
Qed.

End Dob.

Example dob_examples :
  is_likely_dob ascii_env (codes "01011990") = Ok true /\
  is_likely_dob ascii_env (codes "31121990") = Ok true /\
  is_likely_dob ascii_env (codes "19901231") = Ok true /\
  is_likely_dob ascii_env (codes "20250101") = Ok false /\
  is_likely_dob ascii_env (codes "99999999") = Ok false /\
  is_likely_dob ascii_env (codes "not a date") = Ok false.
Proof. vm_compute. repeat split; reflexivity. Qed.

End DobFacts.

(** ** The filtering loop and [redact] *)

Module RedactFacts.
Import AirlinePIIRedactor Spec.

Section Loop.
Variable E : Env.
Local Abbreviation U := (unicode E).

Lemma refine_step_passes text acc res :
  refine_step E text acc res
  = Ok (if passes E text res then acc ++ [res] else acc).
Proof.
  unfold refine_step, passes, weak_common_word, matched_text, dob_flag.
  destruct (entity_type res =? "DATE_TIME")%string.
  { rewrite DobFacts.is_likely_dob_eq. reflexivity. }
  destruct (entity_type res =? "PNR")%string; [reflexivity|].
  destruct (entity_type res =? "Flight Number")%string; [reflexivity|].
  destruct (entity_type res =? "Frequent Flyer")%string.
  { destruct (is_valid_frequent_flyer E _); reflexivity. }
  destruct (entity_type res =? "PERSON")%string; [|reflexivity].
  match goal with |- (if ?c then _ else _) = _ => destruct c end; reflexivity.
Qed.

(** The loop never raises and appends the candidates that pass, in their
    order. *)
Lemma refine_loop_filter text combined acc :
  refine_loop E text combined acc = Ok (acc ++ filter (passes E text) combined).
Proof.
  revert acc. induction combined as [|res rest IH]; intros acc; simpl.
  - now rewrite app_nil_r.
  - rewrite refine_step_passes. simpl. rewrite IH.
    destruct (passes E text res); [|reflexivity].
    now rewrite <- app_assoc.
Qed.

Lemma final_results_eq text :
  final_results E text
  = (combined <- combined_results E text ;; Ok (filter (passes E text) combined)).
Proof.
  unfold final_results.
  destruct (combined_results E text) as [combined|e]; simpl; [|reflexivity].
  apply refine_loop_filter.
Qed.

Lemma filter_keeps_ordered_pairs {A} (R : A -> A -> Prop) (f : A -> bool) l :
  ForallOrdPairs R l -> ForallOrdPairs R (filter f l).
Proof.
  induction 1 as [|a l Ha Hl IH]; simpl; [constructor|].
  destruct (f a); [|exact IH].
  constructor; [|exact IH].
  rewrite Forall_forall in *. intros x Hx.
  apply filter_In in Hx. apply Ha, Hx.
Qed.

(** C1, amended.  The spans handed to the anonymizer are exactly the
    collected candidates that pass their kind's validation, in collection
    order: [redact] neither sorts them nor removes overlaps, which is left
    to the anonymizer.  They are pairwise free of overlap when the
    collected candidates are. *)
Theorem final_results_validated_sublist (text : str)
    (combined : list RecognizerResult) :
  combined_results E text = Ok combined ->
  final_results E text = Ok (filter (passes E text) combined) /\
  (ForallOrdPairs disjoint combined ->
   ForallOrdPairs disjoint (filter (passes E text) combined)).
Proof.
  intros H. split.
  - rewrite final_results_eq, H. reflexivity.
  - apply filter_keeps_ordered_pairs.
Qed.

Lemma Qltb_lt x y : Qltb x y = true <-> (x < y)%Q.
Proof.
  unfold Qltb. rewrite negb_true_iff.
  split; intros H.
  - apply Qnot_le_lt. intros Hle. apply Qle_bool_iff in Hle. congruence.
  - destruct (Qle_bool y x) eqn:Hb; [|reflexivity].
    apply Qle_bool_iff in Hb. exfalso. eapply Qlt_not_le; eauto.
Qed.

(** C5, amended.  A Person candidate whose text is a single token that
    lowercases to one of the eleven common words is dropped exactly when
    its score is below 0.6; with a score of 0.6 or more it is kept. *)
Theorem common_word_person_threshold (text : str)
    (acc : list RecognizerResult) (res : RecognizerResult) :
  entity_type res = "PERSON"%string ->
  List.length (split_ws (matched_text text res)) = 1%nat ->
  in_words (lower U (matched_text text res)) common_name_words = true ->
  ((score res < 6 # 10)%Q -> refine_step E text acc res = Ok acc) /\
  ((6 # 10 <= score res)%Q -> refine_step E text acc res = Ok (acc ++ [res])).
Proof.
  intros Hty Hone Hword.
  assert (Hstep : refine_step E text acc res
                  = Ok (if Qltb (score res) (6 # 10) then acc else acc ++ [res])).
  { rewrite refine_step_passes. unfold passes, weak_common_word.
    rewrite Hty, Hone, Hword. simpl.
    destruct (Qltb (score res) (6 # 10)); reflexivity. }
  rewrite Hstep. split; intros H.
  - apply Qltb_lt in H. now rewrite H.
  - destruct (Qltb (score res) (6 # 10)) eqn:Hb; [|reflexivity].
    apply Qltb_lt in Hb. exfalso. eapply Qlt_not_le; eauto.
Qed.

(** *** What [redact] returns *)

(** An exception of the analyzer call reaches the caller. *)
Lemma redact_analyzer_raises text e :
  analyzer_analyze E text = Raise e -> redact E text = Raise e.
Proof.
  intros H. unfold redact, final_results, combined_results.
  now rewrite H.
Qed.

(** When the analyzer returns, [redact] returns a string. *)
Lemma redact_returns text results :
  analyzer_analyze E text = Ok results -> exists out, redact E text = Ok out.
Proof.
  intros H. unfold redact. rewrite final_results_eq.
  unfold combined_results. rewrite H. simpl.
  match goal with |- context [anonymize E text ?f ?o] =>
    destruct (anonymize E text f o) as [out|e] end; simpl; eauto.
Qed.

(** Fail-open: when the anonymizer raises, [redact] returns the text it
    was given. *)
Lemma redact_fail_open text final e :
  final_results E text = Ok final ->
  anonymize E text final operators = Raise e ->
  redact E text = Ok text.
Proof.
  intros Hf Ha. unfold redact. rewrite Hf. cbn [bind].
  fold operators. now rewrite Ha.
Qed.

End Loop.

(** C2. The analyzer call of [redact] stands outside the [try]: when it
    raises, [redact] raises to its caller instead of returning the text.
    Only a failure of the anonymizing step is turned into the original
    text. *)
Theorem redact_raises_when_analyzer_fails :
  redact failing_analyzer_env (codes "My PNR is X9Y8Z7.") = Raise ValueError /\
  redact failing_anonymizer_env (codes "My PNR is X9Y8Z7.")
    = Ok (codes "My PNR is X9Y8Z7.").
Proof. vm_compute. split; reflexivity. Qed.

End RedactFacts.

(** ** Counterexamples and instances *)

Module Instances.
Import InternationalPhoneRecognizer AirlinePIIRedactor Strptime Spec.

(** On "Ouyang Ming" both candidates of the romanized-name recognizer pass
    the loop, so the list handed to the anonymizer holds two spans over
    [0, 11): sorted by start, the first ends at 11, after the start 0 of
    the second. *)
Lemma final_results_overlap :
  final_results ascii_env (codes "Ouyang Ming") = Ok [ouyang_85; ouyang_90] /\
  non_overlapping [ouyang_85; ouyang_90] = false.
Proof. vm_compute. split; reflexivity. Qed.

(** With the current year 2026, "01012024" parses strictly as 1 January
    2024: the year is after 1900 and two years before the current year,
    and the classifier answers [False]. *)
Lemma dob_two_years_back_rejected :
  parsed_date ascii_env (codes "01012024")
    = Some {| year := 2024; month := 1; day := 1 |} /\
  (1900 < 2024 /\ 2024 <= now_year ascii_env - 2)%Z /\
  is_likely_dob ascii_env (codes "01012024") = Ok false.
Proof. vm_compute. repeat split; discriminate. Qed.

(** "May" reported as a person with score 0.6, which does not exceed 0.6:
    a single token, one of the common words, and it is kept. *)
Lemma common_word_at_threshold_kept :
  final_results may_env (codes "May I help you?") = Ok [may_person] /\
  split_ws (matched_text (codes "May I help you?") may_person) = [codes "May"] /\
  in_words (lower ascii_tables (codes "May")) common_name_words = true /\
  ~ (6 # 10 < score may_person)%Q.
Proof.
  split; [vm_compute; reflexivity|].
  split; [vm_compute; reflexivity|].
  split; [vm_compute; reflexivity|].
  apply Qlt_irrefl.
Qed.

Lemma analyze_emits_only_accepted_witness :
  In cn_mobile_hit (analyze (codes "Mobile 13800138000 is valid")) /\
  exists config m,
    In config PHONE_PATTERNS /\
    In m (finditer (pattern config) (codes "Mobile 13800138000 is valid")) /\
    accepted config (clean (group0 (codes "Mobile 13800138000 is valid") m)) /\
    cn_mobile_hit = hit_of (codes "Mobile 13800138000 is valid") config m /\
    ph_score cn_mobile_hit = confidence config.
Proof.
  split.
  - vm_compute. left. reflexivity.
  - apply (PhoneFacts.analyze_emits_only_accepted
             (codes "Mobile 13800138000 is valid") cn_mobile_hit).
    vm_compute. left. reflexivity.
Defined.

Lemma is_valid_pnr_decision_witness :
  is_valid_pnr ascii_env (codes "FLIGHT delayed") (codes "FLIGHT") 0 6 = false /\
  is_valid_pnr ascii_env (codes "An Abcdef ref") (codes "Abcdef") 3 9 = false /\
  is_valid_pnr ascii_env (codes "My PNR is X9Y8Z7.") (codes "X9Y8Z7") 10 16 = true /\
  is_valid_pnr ascii_env (codes "Booking ref ABCDEF.") (codes "ABCDEF") 12 18
    = keyword_in_window ascii_env (codes "Booking ref ABCDEF.") 12 18.
Proof.
  split; [|split; [|split]].
  - apply (proj1 (ValidatorFacts.is_valid_pnr_decision ascii_env
                    (codes "FLIGHT delayed") (codes "FLIGHT") 0 6)).
    vm_compute. reflexivity.
  - apply (proj1 (proj2 (ValidatorFacts.is_valid_pnr_decision ascii_env
                           (codes "An Abcdef ref") (codes "Abcdef") 3 9)));
      vm_compute; reflexivity.
  - apply (proj1 (proj2 (proj2 (ValidatorFacts.is_valid_pnr_decision ascii_env
                                  (codes "My PNR is X9Y8Z7.") (codes "X9Y8Z7") 10 16))));
      vm_compute; reflexivity.
  - apply (proj2 (proj2 (proj2 (ValidatorFacts.is_valid_pnr_decision ascii_env
                                  (codes "Booking ref ABCDEF.") (codes "ABCDEF") 12 18))));
      vm_compute; reflexivity.
Defined.

Lemma keyword_inside_candidate_accepts_witness :
  infix (strip (slice (codes "I PREFER tea") 2 8)) (window (codes "I PREFER tea") 2 8) /\
  is_valid_pnr ascii_env (codes "I PREFER tea")
               (strip (slice (codes "I PREFER tea") 2 8)) 2 8 = true.
Proof.
  apply (ValidatorFacts.keyword_inside_candidate_accepts ascii_env
           (codes "I PREFER tea") 2 8).
  - exact ValidatorFacts.ascii_keyword_stable.
  - vm_compute. reflexivity.
  - vm_compute. reflexivity.
  - vm_compute. reflexivity.
  - exists "ref"%string. split; vm_compute; [|reflexivity].
    do 9 right. left. reflexivity.
Defined.

Lemma dob_classification_witness :
  is_likely_dob ascii_env (codes "01011990")
    = Ok (classify ascii_env (parsed_date ascii_env (codes "01011990"))) /\
  (dob_year ascii_env 2023 = true <-> (1900 < 2023 /\ now_year ascii_env - 2023 > 2)%Z).
Proof.
  destruct (DobFacts.dob_classification ascii_env (codes "01011990")) as [H1 H2].
  split; [exact H1|exact (H2 2023%Z)].
Defined.

Lemma is_likely_dob_total_witness :
  is_likely_dob ascii_env (codes "not a date") = Ok false /\
  is_likely_dob ascii_env (codes "99999999") = Ok false.
Proof.
  destruct (DobFacts.is_likely_dob_total ascii_env (codes "not a date"))
    as (_ & _ & Hlenient & _).
  destruct (DobFacts.is_likely_dob_total ascii_env (codes "99999999"))
    as (_ & _ & _ & Hstrict).
  split.
  - apply (Hlenient (OtherException "ParserError")); vm_compute; reflexivity.
  - apply Hstrict; [vm_compute; reflexivity|].
    intros fmt. exists ValueError. destruct fmt; vm_compute; reflexivity.
Defined.

Lemma final_results_validated_sublist_witness :
  combined_results ascii_env (codes "Ouyang Ming") = Ok [ouyang_85; ouyang_90] /\
  final_results ascii_env (codes "Ouyang Ming")
    = Ok (filter (passes ascii_env (codes "Ouyang Ming")) [ouyang_85; ouyang_90]).
Proof.
  assert (H : combined_results ascii_env (codes "Ouyang Ming")
              = Ok [ouyang_85; ouyang_90]) by (vm_compute; reflexivity).
  split; [exact H|].
  exact (proj1 (RedactFacts.final_results_validated_sublist ascii_env
                  (codes "Ouyang Ming") H)).
Defined.

Lemma common_word_person_threshold_witness :
  refine_step ascii_env (codes "May I help you?") [] may_person = Ok [may_person] /\
  refine_step ascii_env (codes "May I help you?") []
              (mkResult "PERSON" 0 3 (59 # 100)) = Ok [].
Proof.
  split.
  - apply (proj2 (RedactFacts.common_word_person_threshold ascii_env
                    (codes "May I help you?") [] may_person
                    eq_refl eq_refl eq_refl)).
    apply Qle_refl.
  - apply (proj1 (RedactFacts.common_word_person_threshold ascii_env
                    (codes "May I help you?") []
                    (mkResult "PERSON" 0 3 (59 # 100))
                    eq_refl eq_refl eq_refl)).
    reflexivity.
Defined.

End Instances.

(** ** The matcher *)

Module MatcherFacts.

Lemma steps_refl P st : steps P 0 st st.
Proof. exists []. simpl. repeat split; auto. Qed.

Lemma steps_trans P Q R n1 n2 st1 st2 st3 :
  (forall c, P c = true -> R c = true) ->
  (forall c, Q c = true -> R c = true) ->
  steps P n1 st1 st2 -> steps Q n2 st2 st3 -> steps R (n1 + n2) st1 st3.
Proof.
  intros HP HQ (c1 & E1 & P1 & F1 & L1) (c2 & E2 & P2 & F2 & L2).
  exists (c1 ++ c2). rewrite length_app, forallb_app.
  repeat split.
  - now rewrite E1, E2, app_assoc.
  - lia.
  - apply andb_true_iff. split; apply forallb_forall; intros x Hx.
    + apply HP. rewrite forallb_forall in F1. auto.
    + apply HQ. rewrite forallb_forall in F2. auto.
  - lia.
Qed.

Lemma steps_weaken P R n n' st st' :
  (forall c, P c = true -> R c = true) -> n' <= n ->
  steps P n st st' -> steps R n' st st'.
Proof.
  intros HP Hn (c & E & Hp & F & L). exists c. repeat split; auto; [|lia].
  apply forallb_forall. intros x Hx. apply HP.
  rewrite forallb_forall in F. auto.
Qed.

(** A successful repetition hands to its continuation a state reached by
    reading at least [lo] characters of the class. *)
Lemma rep_match_steps p (s : str) : forall lo hi st k res,
  m_rest st = s ->
  rep_match p lo hi st s k = Some res ->
  exists st', steps p lo st st' /\ k st' = Some res.
Proof.
  induction s as [|c s' IH]; intros lo hi st k res Hrest H.
  - simpl in H. destruct lo; [|discriminate].
    exists st. split; [apply steps_refl|exact H].
  - simpl in H.
    assert (Hstop : match lo with 0 => k st | S _ => None end = Some res ->
                    exists st', steps p lo st st' /\ k st' = Some res).
    { destruct lo; [|discriminate]. intros Hk.
      exists st. split; [apply steps_refl|exact Hk]. }
    destruct (p c && match hi with Some 0 => false | _ => true end) eqn:Hc;
      [|auto].
    destruct (rep_match p (pred lo) (option_map pred hi) (advance st c s') s' k)
      as [r|] eqn:Hr; [|auto].
    injection H as <-.
    destruct (IH _ _ (advance st c s') _ _ eq_refl Hr)
      as (st' & (cs & E & Hp & F & L) & Hk).
    exists st'. split; [|exact Hk].
    exists (c :: cs). simpl in *. apply andb_true_iff in Hc. destruct Hc as [Hpc _].
    repeat split.
    + now rewrite Hrest, E.
    + lia.
    + now rewrite Hpc, F.
    + lia.
Qed.

(** A successful match hands to its continuation a state reached by
    reading at least [min_len r] characters, all characters of [r]. *)
Lemma rmatch_steps r : forall st k res,
  rmatch r st k = Some res ->
  exists st', steps (chars_of r) (min_len r) st st' /\ k st' = Some res.
Proof.
  induction r as [p| |a IHa b IHb|a IHa b IHb|p lo hi|i a IHa|w|p|p];
    intros st k res H; simpl in H.
  - destruct (m_rest st) as [|c s'] eqn:E; [discriminate|].
    destruct (p c) eqn:Hp; [|discriminate].
    exists (advance st c s'). split; [|exact H].
    exists [c]. simpl. rewrite E, Hp. repeat split; auto; lia.
  - exists st. split; [apply steps_refl|exact H].
  - destruct (IHa _ _ _ H) as (st1 & S1 & H1).
    destruct (IHb _ _ _ H1) as (st2 & S2 & H2).
    exists st2. split; [|exact H2]. simpl min_len.
    apply (@steps_trans (chars_of a) (chars_of b) _ _ _ _ st1 _);
      [intros c Hc; simpl; now rewrite Hc
      |intros c Hc; simpl; rewrite Hc; apply orb_true_r
      |exact S1|exact S2].
  - destruct (rmatch a st k) as [r|] eqn:Ha.
    + injection H as <-. destruct (IHa _ _ _ Ha) as (st1 & S1 & H1).
      exists st1. split; [|exact H1].
      apply (@steps_weaken (chars_of a) _ (min_len a) _ _ _);
        [intros c Hc; simpl; now rewrite Hc|simpl; lia|exact S1].
    + destruct (IHb _ _ _ H) as (st1 & S1 & H1).
      exists st1. split; [|exact H1].
      apply (@steps_weaken (chars_of b) _ (min_len b) _ _ _);
        [intros c Hc; simpl; rewrite Hc; apply orb_true_r|simpl; lia|exact S1].
  - exact (rep_match_steps p lo hi st k eq_refl H).
  - destruct (IHa _ _ _ H) as (st1 & (cs & E & Hp & F & L) & H1).
    exists (capture i (m_pos st) st1). split; [|exact H1].
    exists cs. simpl. auto.
  - destruct (xorb _ _); [|discriminate].
    exists st. split; [apply steps_refl|exact H].
  - destruct (opt_test p (m_prev st)); [discriminate|].
    exists st. split; [apply steps_refl|exact H].
  - destruct (opt_test p (hd_error (m_rest st))); [discriminate|].
    exists st. split; [apply steps_refl|exact H].
Qed.

Lemma match_here_span r pos prev s m :
  match_here r pos prev s = Some m ->
  mt_start m = pos /\
  exists consumed rest,
    s = consumed ++ rest /\
    mt_end m = pos + List.length consumed /\
    forallb (chars_of r) consumed = true /\
    min_len r <= List.length consumed.
Proof.
  unfold match_here.
  destruct (rmatch r _ _) as [st|] eqn:H; [|discriminate].
  intros [= <-]. simpl. split; [reflexivity|].
  destruct (rmatch_steps _ _ _ H) as (st' & (cs & E & Hp & F & L) & Hk).
  injection Hk as ->. simpl in *.
  exists cs, (m_rest st). auto.
Qed.

Lemma slice_middle (pre mid post : str) :
  slice (pre ++ mid ++ post) (List.length pre) (List.length pre + List.length mid)
  = mid.
Proof.
  unfold slice.
  replace (List.length pre + List.length mid - List.length pre)
    with (List.length mid) by lia.
  rewrite skipn_app, Nat.sub_diag, skipn_all. simpl.
  rewrite firstn_app, Nat.sub_diag, firstn_all. simpl. apply app_nil_r.
Qed.

(** Where the matches of a scan lie in the scanned text. *)
Lemma finditer_from_span r (s : str) : forall pos prev skip m,
  In m (finditer_from r pos prev skip s) ->
  exists pre consumed rest,
    s = pre ++ consumed ++ rest /\
    mt_start m = pos + List.length pre /\
    mt_end m = mt_start m + List.length consumed /\
    forallb (chars_of r) consumed = true /\
    min_len r <= List.length consumed.
Proof.
  induction s as [|c s' IH]; intros pos prev skip m H; [destruct H|].
  assert (Hlater : forall prev' skip',
             In m (finditer_from r (S pos) prev' skip' s') ->
             exists pre consumed rest,
               c :: s' = pre ++ consumed ++ rest /\
               mt_start m = pos + List.length pre /\
               mt_end m = mt_start m + List.length consumed /\
               forallb (chars_of r) consumed = true /\
               min_len r <= List.length consumed).
  { intros prev' skip' Hin.
    destruct (IH _ _ _ _ Hin) as (pre & cs & rest & E & Hs & He & F & L).
    exists (c :: pre), cs, rest. simpl. rewrite E.
    repeat split; auto. lia. }
  simpl in H. destruct skip as [|n]; [|eauto].
  destruct (match_here r pos prev (c :: s')) as [m0|] eqn:Hm; [|eauto].
  destruct H as [<-|H]; [|eauto].
  destruct (match_here_span _ _ _ _ Hm) as (Hs & cs & rest & E & He & F & L).
  exists [], cs, rest. simpl. rewrite Hs.
  repeat split; auto; lia.
Qed.

(** Every match [finditer] reports is a match of the pattern within the
    text. *)
Lemma finditer_match_of r text m :
  In m (finditer r text) -> match_of r text m.
Proof.
  intros H. apply finditer_from_span in H.
  destruct H as (pre & cs & rest & E & Hs & He & F & L).
  simpl in Hs. unfold match_of, group0. rewrite He, Hs, E, slice_middle.
  rewrite !length_app. repeat split; auto; lia.
Qed.

(** The matches of a scan come in order and do not overlap. *)
Lemma finditer_from_order r (s : str) : forall pos prev skip,
  in_scan_order (finditer_from r pos prev skip s) /\
  (forall m, In m (finditer_from r pos prev skip s) -> pos + skip <= mt_start m).
Proof.
  induction s as [|c s' IH]; intros pos prev skip.
  { split; [constructor|intros m []]. }
  simpl. destruct skip as [|n].
  - destruct (match_here r pos prev (c :: s')) as [m0|] eqn:Hm.
    + destruct (match_here_span _ _ _ _ Hm) as (Hs & cs & rest & E & He & F & L).
      destruct (IH (S pos) (Some c) (pred (mt_end m0 - pos))) as [Ho Hge].
      split.
      * constructor; [|exact Ho].
        apply Forall_forall. intros m Hin. specialize (Hge _ Hin). lia.
      * intros m [<-|Hin]; [lia|]. specialize (Hge _ Hin). lia.
    + destruct (IH (S pos) (Some c) 0) as [Ho Hge]. split; [exact Ho|].
      intros m Hin. specialize (Hge _ Hin). lia.
  - destruct (IH (S pos) (Some c) n) as [Ho Hge]. split; [exact Ho|].
    intros m Hin. specialize (Hge _ Hin). lia.
Qed.

Lemma finditer_order r text : in_scan_order (finditer r text).
Proof. apply finditer_from_order. Qed.

End MatcherFacts.

(** ** More on the output normalizer *)

Module NormalizerMore.
Import Normalizer Spec Spec2 NormalizerFacts.

Lemma all_space_filter s : forallb isspace s = true -> filter nonspace s = [].
Proof.
  induction s as [|c r IH]; auto. simpl. intros H.
  apply andb_true_iff in H. destruct H as [Hc Hr].
  unfold nonspace at 1. rewrite Hc. simpl. auto.
Qed.

Lemma lstrip_filter s : filter nonspace (lstrip s) = filter nonspace s.
Proof.
  induction s as [|c r IH]; auto. simpl.
  destruct (isspace c) eqn:Ec; [|reflexivity].
  unfold nonspace at 2. now rewrite Ec.
Qed.

Lemma rstrip_filter s : filter nonspace (rstrip s) = filter nonspace s.
Proof.
  induction s as [|c r IH]; auto.
  rewrite rstrip_cons. destruct (forallb isspace (c :: r)) eqn:E.
  - now rewrite (all_space_filter _ E).
  - simpl. now rewrite IH.
Qed.

Lemma sub_spaces_filter s b : filter nonspace (sub_spaces b s) = filter nonspace s.
Proof.
  revert b. induction s as [|c r IH]; intros b; auto.
  simpl. unfold nonspace at 2. destruct (isspace c) eqn:Ec; simpl.
  - destruct b; [apply IH|]. simpl. apply IH.
  - unfold nonspace at 1. rewrite Ec. simpl. now rewrite IH.
Qed.

Lemma sub_alnum_bracket_filter s :
  filter nonspace (sub_alnum_bracket s) = filter nonspace s.
Proof.
  induction s as [|a|a b l IHl IHbl] using list_pair_ind; auto.
  change (sub_alnum_bracket (a :: b :: l)) with
    (if re_alnum a && (b =? LBRACKET)%N
     then a :: SPACE :: b :: sub_alnum_bracket l
     else a :: sub_alnum_bracket (b :: l)).
  destruct (re_alnum a && (b =? LBRACKET)%N).
  - cbn [filter]. change (nonspace SPACE) with false. cbn iota.
    now rewrite IHl.
  - cbn [filter] in *. now rewrite IHbl.
Qed.

Lemma sub_bracket_alnum_filter s :
  filter nonspace (sub_bracket_alnum s) = filter nonspace s.
Proof.
  induction s as [|a|a b l IHl IHbl] using list_pair_ind; auto.
  change (sub_bracket_alnum (a :: b :: l)) with
    (if (a =? RBRACKET)%N && re_alnum b
     then a :: SPACE :: b :: sub_bracket_alnum l
     else a :: sub_bracket_alnum (b :: l)).
  destruct ((a =? RBRACKET)%N && re_alnum b).
  - cbn [filter]. change (nonspace SPACE) with false. cbn iota.
    now rewrite IHl.
  - cbn [filter] in *. now rewrite IHbl.
Qed.

(** X1. The normalizer only touches white space: the characters of its
    output that are not white space are those of its input, in the same
    order.  It never drops, changes or reorders any other character. *)
Theorem normalize_output_keeps_text (s : str) :
  filter nonspace (_normalize_output s) = filter nonspace s.
Proof.
  rewrite normalize_output_scan. unfold strip.
  rewrite rstrip_filter, lstrip_filter, sub_spaces_filter.
  now rewrite sub_bracket_alnum_filter, sub_alnum_bracket_filter.
Qed.

Lemma rstrip_nil_all_space s : rstrip s = [] -> forallb isspace s = true.
Proof.
  destruct s as [|c r]; auto.
  rewrite rstrip_cons. destruct (forallb isspace (c :: r)); [auto|discriminate].
Qed.

Lemma starts_nonspace_snoc x c :
  starts_nonspace (x ++ [c]) =
  match x with [] => negb (isspace c) | _ => starts_nonspace x end.
Proof. destruct x; reflexivity. Qed.

Lemma rstrip_ends_nonspace s : starts_nonspace (rev (rstrip s)) = true.
Proof.
  induction s as [|c r IH]; auto.
  rewrite rstrip_cons. destruct (forallb isspace (c :: r)) eqn:E; auto.
  simpl rev. rewrite starts_nonspace_snoc.
  destruct (rev (rstrip r)) as [|x t] eqn:Er; [|exact IH].
  assert (Hr : rstrip r = []).
  { apply (f_equal (@rev char)) in Er. now rewrite rev_involutive in Er. }
  apply rstrip_nil_all_space in Hr. simpl in E. rewrite Hr, andb_true_r in E.
  now rewrite E.
Qed.

Lemma ends_nonspace_not_all_space c r :
  starts_nonspace (rev (c :: r)) = true -> forallb isspace (c :: r) = false.
Proof.
  intros H. destruct (forallb isspace (c :: r)) eqn:E; auto.
  assert (Hall : forall x, In x (rev (c :: r)) -> isspace x = true).
  { intros x Hx. apply in_rev in Hx. rewrite forallb_forall in E. auto. }
  destruct (rev (c :: r)) as [|x t] eqn:Er.
  - apply (f_equal (@List.length char)) in Er. rewrite length_rev in Er.
    discriminate.
  - simpl in H. rewrite (Hall x (or_introl eq_refl)) in H. discriminate.
Qed.

Lemma rstrip_fix s : starts_nonspace (rev s) = true -> rstrip s = s.
Proof.
  induction s as [|c r IH]; auto. intros H.
  rewrite rstrip_cons, (ends_nonspace_not_all_space _ _ H). f_equal.
  apply IH. simpl rev in H. rewrite starts_nonspace_snoc in H.
  destruct (rev r) as [|x t] eqn:Er; [reflexivity|exact H].
Qed.

Lemma tidy_parts s :
  tidy s = true <->
  adj_free alnum_then_open s = true /\ adj_free close_then_alnum s = true /\
  only_plain_spaces s = true /\ adj_free both_space s = true /\
  starts_nonspace s = true /\ starts_nonspace (rev s) = true.
Proof. unfold tidy. rewrite !andb_true_iff. tauto. Qed.

Lemma normalize_output_tidy s : tidy (_normalize_output s) = true.
Proof.
  rewrite normalize_output_scan. apply tidy_parts.
  set (u := sub_spaces false (sub_bracket_alnum (sub_alnum_bracket s))).
  unfold strip. repeat split.
  - apply rstrip_adj_free, lstrip_adj_free.
    apply sub_spaces_keeps; try reflexivity.
    + intros x. unfold alnum_then_open. apply andb_false_r.
    + apply sub_bracket_alnum_keeps, sub_alnum_bracket_free.
  - apply rstrip_adj_free, lstrip_adj_free.
    apply sub_spaces_keeps; try reflexivity.
    + intros x. unfold close_then_alnum. apply andb_false_r.
    + apply sub_bracket_alnum_free.
  - apply rstrip_plain, lstrip_plain, sub_spaces_plain.
  - apply rstrip_adj_free, lstrip_adj_free, sub_spaces_single.
  - apply rstrip_starts_nonspace, lstrip_starts_nonspace.
  - apply rstrip_ends_nonspace.
Qed.

Lemma tidy_unchanged s : tidy s = true -> _normalize_output s = s.
Proof.
  intros H. apply tidy_parts in H.
  destruct H as (Ho & Hc & Hp & Hd & Hs & He).
  rewrite normalize_output_scan.
  rewrite (sub_alnum_bracket_fix _ Ho), (sub_bracket_alnum_fix _ Hc).
  rewrite (sub_spaces_fix _ Hp Hd). unfold strip.
  rewrite (lstrip_fix _ Hs). now apply rstrip_fix.
Qed.

(** X2. The strings the normalizer leaves unchanged are exactly the tidy
    ones: no alphanumeric character directly before "[" or directly after
    "]", every white space character a plain space, no two of them in a
    row, none at either end.  Every output of the normalizer is tidy. *)
Theorem normalize_output_fixed_points (s : str) :
  tidy (_normalize_output s) = true /\
  (_normalize_output s = s <-> tidy s = true).
Proof.
  split; [apply normalize_output_tidy|]. split.
  - intros H. rewrite <- H. apply normalize_output_tidy.
  - apply tidy_unchanged.
Qed.

End NormalizerMore.

(** ** More on the recognizers *)

Module RecognizerMore.
Import InternationalPhoneRecognizer SurnameManager AirlinePIIRedactor.
Import Spec Spec2 MatcherFacts.

(** *** Character sets of the patterns *)

Lemma within_chr P (p : char -> bool) :
  (forall c, p c = true -> P c = true) -> within P (Chr p).
Proof. intros H c. simpl. apply H. Qed.

Lemma within_rep P (p : char -> bool) lo hi :
  (forall c, p c = true -> P c = true) -> within P (Rep p lo hi).
Proof. intros H c. simpl. apply H. Qed.

Lemma within_seq P a b : within P a -> within P b -> within P (Seq a b).
Proof.
  intros Ha Hb c. simpl. intros H. apply orb_true_iff in H.
  destruct H; [apply Ha|apply Hb]; assumption.
Qed.

Lemma within_alt P a b : within P a -> within P b -> within P (Alt a b).
Proof. exact (within_seq (P := P) (a := a) (b := b)). Qed.

Lemma within_eps P : within P Eps.
Proof. intros c. discriminate. Qed.

Lemma within_opt P r : within P r -> within P (opt r).
Proof. intros H. apply within_alt; [exact H|apply within_eps]. Qed.

Lemma within_group P i r : within P r -> within P (Group i r).
Proof. intros H c. simpl. apply H. Qed.

Lemma within_not_after P p : within P (NotAfter p).
Proof. intros c. discriminate. Qed.

Lemma within_not_before P p : within P (NotBefore p).
Proof. intros c. discriminate. Qed.

Lemma within_boundary P w : within P (WordBoundary w).
Proof. intros c. discriminate. Qed.

Lemma within_seqs P rs : Forall (within P) rs -> within P (seqs rs).
Proof.
  induction 1 as [|r rest Hr Hrest IH]; [apply within_eps|].
  destruct rest as [|r' rest']; [exact Hr|].
  change (seqs (r :: r' :: rest')) with (Seq r (seqs (r' :: rest'))).
  now apply within_seq.
Qed.

Lemma within_alts P rs : Forall (within P) rs -> within P (alts rs).
Proof.
  induction 1 as [|r rest Hr Hrest IH]; [intros c; discriminate|].
  destruct rest as [|r' rest']; [exact Hr|].
  change (alts (r :: r' :: rest')) with (Alt r (alts (r' :: rest'))).
  now apply within_alt.
Qed.

Lemma within_lit_str P w : forallb P w = true -> within P (lit_str w).
Proof.
  induction w as [|a w IH]; intros H; [apply within_eps|].
  simpl in H. apply andb_true_iff in H. destruct H as [Ha Hw].
  change (lit_str (a :: w)) with (Seq (Chr (N.eqb a)) (lit_str w)).
  apply within_seq; [|auto].
  apply within_chr. intros c Hc. apply N.eqb_eq in Hc. now subst c.
Qed.

Lemma within_lit P w : forallb P (codes w) = true -> within P (lit w).
Proof. apply within_lit_str. Qed.

Lemma within_one_of P cs :
  forallb P (codes cs) = true -> within P (Chr (one_of cs)).
Proof.
  intros H. apply within_chr. intros c Hc. unfold one_of in Hc.
  apply existsb_exists in Hc. destruct Hc as (a & Ha & Hac).
  apply N.eqb_eq in Hac. subst a. rewrite forallb_forall in H. auto.
Qed.

Lemma digit_phone_char c : re_09 c = true -> phone_char c = true.
Proof. intros H. unfold phone_char. now rewrite H. Qed.

Lemma range_phone_char lo hi :
  (48 <=? code lo)%N = true -> (code hi <=? 57)%N = true ->
  forall c, chr_range lo hi c = true -> phone_char c = true.
Proof.
  intros Hlo Hhi c H. apply digit_phone_char.
  unfold chr_range, re_09, in_range in *.
  rewrite !andb_true_iff, !N.leb_le in *. lia.
Qed.

Lemma within_sep : within phone_char sep.
Proof.
  apply within_opt, within_chr. intros c H.
  unfold phone_char, is_separator. apply orb_true_iff in H.
  destruct H as [H|H].
  - apply N.eqb_eq in H. subst c. reflexivity.
  - rewrite H. now rewrite orb_true_r.
Qed.

Lemma within_d n : within phone_char (d n).
Proof. apply within_rep, digit_phone_char. Qed.

Lemma within_country cc :
  forallb phone_char (codes cc) = true -> within phone_char (country cc).
Proof.
  intros H. apply within_opt, within_seqs.
  repeat constructor.
  - apply within_opt, within_lit. reflexivity.
  - now apply within_lit.
  - apply within_sep.
Qed.

Ltac phone_within :=
  first
    [ apply within_not_after | apply within_not_before | apply within_sep
    | apply within_d | apply within_country; reflexivity
    | apply within_lit; reflexivity | apply within_one_of; reflexivity
    | apply within_opt; phone_within
    | apply within_alt; phone_within
    | apply within_rep; exact digit_phone_char
    | apply within_chr; exact digit_phone_char
    | apply within_chr; apply range_phone_char; reflexivity ].

(** The phone patterns match digits and separators only, and at least eight
    characters. *)
Lemma phone_patterns_shape :
  Forall (fun config => within phone_char (pattern config) /\
                        8 <= min_len (pattern config))
         PHONE_PATTERNS.
Proof.
  unfold PHONE_PATTERNS.
  repeat (apply Forall_cons; [split|]); try apply Forall_nil;
    try (vm_compute; lia);
    cbn [pattern]; unfold phone; cbn [app];
    apply within_seqs; repeat (apply Forall_cons; [phone_within|]);
    apply Forall_nil.
Qed.

Lemma forallb_weaken (P Q : char -> bool) l :
  (forall c, P c = true -> Q c = true) -> forallb P l = true -> forallb Q l = true.
Proof.
  intros H HP. apply forallb_forall. intros x Hx. apply H.
  rewrite forallb_forall in HP. auto.
Qed.

Lemma analyze_inv text h :
  In h (analyze text) ->
  exists config m,
    In config PHONE_PATTERNS /\ In m (finditer (pattern config) text) /\
    accepted config (clean (group0 text m)) /\ h = hit_of text config m.
Proof.
  unfold analyze. intros H.
  apply in_flat_map in H. destruct H as (config & Hc & H).
  apply in_flat_map in H. destruct H as (m & Hm & H).
  apply PhoneFacts.analyze_match_inv in H. destruct H as [Hacc ->].
  now exists config, m.
Qed.

(** X3. Every candidate of the phone recognizer is a span of the text:
    at least eight characters long, ending within the text, and its [text]
    field is the text between its offsets. *)
Theorem phone_hit_bounds (text : str) (h : phone_hit) :
  In h (analyze text) ->
  ph_start h + 8 <= ph_end h /\ ph_end h <= List.length text /\
  ph_text h = slice text (ph_start h) (ph_end h) /\
  List.length (ph_text h) = ph_end h - ph_start h.
Proof.
  intros H. destruct (analyze_inv _ _ H) as (config & m & Hc & Hm & _ & ->).
  pose proof phone_patterns_shape as Hshape.
  rewrite Forall_forall in Hshape. destruct (Hshape _ Hc) as [_ Hmin].
  destruct (finditer_match_of _ _ _ Hm) as (Hlen & Hend & Hg & _).
  simpl. repeat split; auto. lia.
Qed.

(** X4. A candidate of the phone recognizer consists of ASCII digits,
    white space, hyphens, plus signs and parentheses only, so the number
    left after stripping is all ASCII digits and the length test of the
    region counts digits. *)
Theorem phone_hit_digits (text : str) (h : phone_hit) :
  In h (analyze text) ->
  forallb phone_char (ph_text h) = true /\
  forallb re_09 (clean (ph_text h)) = true.
Proof.
  intros H. destruct (analyze_inv _ _ H) as (config & m & Hc & Hm & _ & ->).
  pose proof phone_patterns_shape as Hshape.
  rewrite Forall_forall in Hshape. destruct (Hshape _ Hc) as [Hwithin _].
  destruct (finditer_match_of _ _ _ Hm) as (_ & _ & _ & Hchars).
  simpl ph_text.
  assert (Hall : forallb phone_char (group0 text m) = true)
    by (eapply forallb_weaken; eauto).
  split; [exact Hall|].
  apply forallb_forall. intros c Hin. apply PhoneFacts.clean_spec in Hin.
  destruct Hin as [Hin Hsep]. rewrite forallb_forall in Hall.
  specialize (Hall _ Hin). unfold phone_char in Hall.
  rewrite Hsep, orb_false_r in Hall. exact Hall.
Qed.

(** *** Romanized names *)

Lemma in_words_exists w l :
  in_words w l = true -> exists k, In k l /\ w = codes k.
Proof.
  unfold in_words. intros H. apply existsb_exists in H.
  destruct H as (k & Hk & Heq). exists k. split; [exact Hk|].
  unfold str_eqb in Heq. destruct (list_eq_dec N.eq_dec w (codes k)); congruence.
Qed.

Lemma compound_not_blacklisted w :
  in_words w compound_surnames = true -> in_words w blacklist = false.
Proof.
  intros H. apply in_words_exists in H. destruct H as (k & Hk & ->).
  assert (Hall : forallb (fun k => negb (in_words (codes k) blacklist))
                         compound_surnames = true) by (vm_compute; reflexivity).
  rewrite forallb_forall in Hall. now apply negb_true_iff, Hall.
Qed.

Lemma blacklisted_not_surname w :
  in_words w blacklist = true ->
  in_words w single_surnames = false /\ in_words w compound_surnames = false.
Proof.
  intros H. apply in_words_exists in H. destruct H as (k & Hk & ->).
  assert (Hall : forallb (fun k => negb (in_words (codes k) single_surnames)
                                   && negb (in_words (codes k) compound_surnames))
                         blacklist = true) by (vm_compute; reflexivity).
  rewrite forallb_forall in Hall. specialize (Hall _ Hk).
  apply andb_true_iff in Hall. destruct Hall as [H1 H2].
  now rewrite negb_true_iff in H1, H2.
Qed.

(** X5. The blacklist of [is_surname] never changes its answer: no
    blacklisted word is in either surname list, so a word is a surname
    exactly when its lowercase form is in the single or in the compound
    list. *)
Theorem is_surname_is_membership (U : Unicode) (word : str) :
  is_surname U word
  = in_words (lower U word) single_surnames
    || in_words (lower U word) compound_surnames.
Proof.
  unfold is_surname. cbv zeta.
  destruct (in_words (lower U word) blacklist) eqn:Hb; [|reflexivity].
  destruct (blacklisted_not_surname _ Hb) as [-> ->]. reflexivity.
Qed.

Lemma within_capitalized : within name_char capitalized.
Proof.
  apply within_seq.
  - apply within_chr. intros c H. unfold name_char. now rewrite H.
  - apply within_rep. intros c H. unfold name_char. now rewrite H, orb_true_r.
Qed.

Lemma within_two_capitalized_words U : within name_char (two_capitalized_words U).
Proof.
  unfold two_capitalized_words. apply within_seqs.
  repeat constructor.
  - apply within_boundary.
  - apply within_group, within_capitalized.
  - apply within_rep. intros c H. unfold name_char. now rewrite H, !orb_true_r.
  - apply within_group, within_capitalized.
  - apply within_boundary.
Qed.

Lemma detect_names_inv U text h :
  In h (detect_names U text) ->
  exists m,
    In m (finditer (two_capitalized_words U) text) /\
    ((h = name_hit_of text m (85 # 100) /\
      is_surname U (group text m 1) || is_surname U (group text m 2) = true) \/
     (h = name_hit_of text m (9 # 10) /\
      in_words (lower U (group text m 1)) compound_surnames = true)).
Proof.
  unfold detect_names. cbv zeta. rewrite app_nil_l. intros H.
  apply in_app_or in H. destruct H as [H|H];
    apply in_flat_map in H; destruct H as (m & Hm & H); exists m;
    (split; [exact Hm|]); cbv beta zeta in H.
  - destruct (is_surname U (group text m 1) || is_surname U (group text m 2));
      [|destruct H]. destruct H as [<-|[]]. left. auto.
  - destruct (in_words (lower U (group text m 1)) compound_surnames);
      [|destruct H]. destruct H as [<-|[]]. right. auto.
Qed.

(** X6. Every candidate of the romanized-name recognizer is a PERSON with
    score 0.85 or 0.9 over a span of the text: at least five characters,
    ASCII letters and white space only, ending within the text, its [text]
    field being the text between its offsets. *)
Theorem detect_names_hit_shape (U : Unicode) (text : str) (h : name_hit) :
  In h (detect_names U text) ->
  nm_type h = "PERSON"%string /\
  (nm_score h = (85 # 100)%Q \/ nm_score h = (9 # 10)%Q) /\
  nm_start h + 5 <= nm_end h /\ nm_end h <= List.length text /\
  nm_text h = slice text (nm_start h) (nm_end h) /\
  forallb name_char (nm_text h) = true.
Proof.
  intros H. destruct (detect_names_inv _ _ _ H) as (m & Hm & Hcase).
  destruct (finditer_match_of _ _ _ Hm) as (Hlen & Hend & _ & Hchars).
  change (min_len (two_capitalized_words U)) with 5 in Hlen.
  assert (Hname : forallb name_char (group0 text m) = true).
  { eapply forallb_weaken; [|exact Hchars]. apply within_two_capitalized_words. }
  destruct Hcase as [[-> _]|[-> _]]; simpl; repeat split; auto.
Qed.

(** X7. Every candidate with score 0.9 of the romanized-name recognizer
    repeats a candidate with score 0.85 over the same span: the compound
    surnames are outside the blacklist, so the first loop has already
    reported the pair. *)
Theorem detect_names_compound_is_duplicate (U : Unicode) (text : str)
    (h : name_hit) :
  In h (detect_names U text) ->
  nm_score h = (9 # 10)%Q ->
  In {| nm_text := nm_text h; nm_start := nm_start h; nm_end := nm_end h;
        nm_type := nm_type h; nm_score := 85 # 100 |}
     (detect_names U text).
Proof.
  intros H Hscore. destruct (detect_names_inv _ _ _ H) as (m & Hm & Hcase).
  destruct Hcase as [[-> _]|[-> Hc]]; [discriminate Hscore|].
  apply (SurnameFacts.detect_names_compound_twice U text m Hm Hc).
  now apply compound_not_blacklisted.
Qed.

(** *** Chinese names by pattern *)

Lemma within_chinese_name_pattern : within cjk _chinese_name_pattern.
Proof.
  unfold _chinese_name_pattern. apply within_seq.
  - apply within_group, within_alts.
    assert (Hall : forallb (forallb cjk) (sorted_by_len_desc surnames) = true)
      by (vm_compute; reflexivity).
    rewrite forallb_forall in Hall.
    apply Forall_forall. intros r Hr.
    destruct (proj1 (in_map_iff lit_str _ r) Hr) as (w & <- & Hw).
    apply within_lit_str. exact (Hall w Hw).
  - apply within_rep. intros c Hc. exact Hc.
Qed.

Lemma ordered_map {A B} (R : B -> B -> Prop) (f : A -> B) l :
  ForallOrdPairs (fun a b => R (f a) (f b)) l -> ForallOrdPairs R (map f l).
Proof.
  induction 1 as [|a l Ha Hl IH]; simpl; constructor; auto.
  apply Forall_forall. intros y Hy. apply in_map_iff in Hy.
  destruct Hy as (x & <- & Hx). rewrite Forall_forall in Ha. auto.
Qed.

(** X8. Every candidate of the pattern-based Chinese-name recognizer is a
    REGEX_NAME over a span of the text of at least two characters, all in
    the range U+2E80 to U+9FFF (so never a Latin letter), ending within the
    text; and the candidates come in text order without overlapping. *)
Theorem custom_chinese_names_shape (text : str) :
  ForallOrdPairs (fun a b => cn_end a <= cn_start b)
                 (_get_custom_chinese_names text) /\
  (forall h, In h (_get_custom_chinese_names text) ->
     cn_type h = "REGEX_NAME"%string /\
     cn_start h + 2 <= cn_end h /\ cn_end h <= List.length text /\
     cn_text h = slice text (cn_start h) (cn_end h) /\
     forallb cjk (cn_text h) = true).
Proof.
  unfold _get_custom_chinese_names. split.
  - apply ordered_map. exact (finditer_order _chinese_name_pattern text).
  - intros h H.
    destruct (proj1 (in_map_iff _ _ h) H) as (m & <- & Hm).
    destruct (finditer_match_of _ _ _ Hm) as (Hlen & Hend & _ & Hchars).
    assert (Hmin : min_len _chinese_name_pattern = 2) by (vm_compute; reflexivity).
    rewrite Hmin in Hlen. cbn [cn_type cn_start cn_end cn_text].
    repeat split; try assumption.
    exact (@forallb_weaken _ _ _ within_chinese_name_pattern Hchars).
Qed.

End RecognizerMore.

(** ** More on the validators, the loop and [redact] *)

Module RedactMore.
Import InternationalPhoneRecognizer SurnameManager AirlinePIIRedactor.
Import Spec Spec2 MatcherFacts RecognizerMore RedactFacts.

Lemma overlaps_share a b : overlaps a b = true <-> share_position a b.
Proof.
  unfold overlaps, share_position. rewrite Nat.ltb_lt. split.
  - intros H. exists (Nat.max (start a) (start b)). lia.
  - intros (i & Ha & Hb). lia.
Qed.

(** X9. The overlap test of [redact] is exact: [is_overlap] answers true
    exactly when some span of the list shares a character position with
    the new span.  In particular an empty span overlaps nothing, and spans
    that only touch do not overlap. *)
Theorem is_overlap_shares_position (new_res : RecognizerResult)
    (existing_list : list RecognizerResult) :
  is_overlap new_res existing_list = true <->
  exists ex, In ex existing_list /\ share_position new_res ex.
Proof.
  unfold is_overlap. rewrite existsb_exists.
  split; intros (ex & Hin & H); exists ex; (split; [exact Hin|]);
    now apply overlaps_share.
Qed.

Lemma split_ws_aux_nil cur s :
  split_ws_aux cur s = [] <-> cur = [] /\ forallb isspace s = true.
Proof.
  revert cur. induction s as [|c r IH]; intros cur; simpl.
  - destruct cur; split; try tauto; try discriminate. intros [H _]. discriminate.
  - destruct (isspace c) eqn:Ec; simpl.
    + destruct cur as [|x cur'].
      * apply IH.
      * split; [discriminate|]. intros [H _]. discriminate.
    + rewrite IH. split; [intros [H _]; discriminate|intros [_ H]; discriminate].
Qed.

Lemma not_all_space_exists (s : str) :
  forallb isspace s = false <-> exists c, In c s /\ isspace c = false.
Proof.
  split.
  - induction s as [|a r IH]; simpl; [discriminate|].
    destruct (isspace a) eqn:Ea; simpl; intros H.
    + destruct (IH H) as (c & Hc & Hs). exists c. auto.
    + exists a. auto.
  - intros (c & Hc & Hs). destruct (forallb isspace s) eqn:Ef; auto.
    rewrite forallb_forall in Ef. rewrite (Ef c Hc) in Hs. discriminate.
Qed.

Section WithEnv.
Variable E : Env.
Local Abbreviation U := (unicode E).

(** X10. [is_valid_flight_number] accepts a text exactly when it has a
    character that is not white space and none of its characters is
    lowercase: an empty or blank text is rejected, digits alone are
    accepted. *)
Theorem is_valid_flight_number_spec (text : str) :
  is_valid_flight_number E text = true <->
  (exists c, In c text /\ isspace c = false) /\
  (forall c, In c text -> c_islower U c = false).
Proof.
  unfold is_valid_flight_number. cbv zeta.
  assert (Hblank : split_ws text = [] <-> forallb isspace text = true).
  { unfold split_ws. rewrite split_ws_aux_nil. tauto. }
  assert (Hlow : existsb (c_islower U) text = false <->
                 forall c, In c text -> c_islower U c = false).
  { split.
    - intros H c Hc. destruct (c_islower U c) eqn:El; auto.
      assert (existsb (c_islower U) text = true)
        by (apply existsb_exists; eauto). congruence.
    - intros H. destruct (existsb (c_islower U) text) eqn:Ex; auto.
      apply existsb_exists in Ex. destruct Ex as (c & Hc & Hl).
      rewrite (H c Hc) in Hl. discriminate. }
  pose proof (not_all_space_exists text) as Hsome.
  destruct (forallb isspace text) eqn:Ef.
  - rewrite (proj2 Hblank eq_refl). split; [discriminate|]. intros [Hex _].
    apply (proj2 Hsome) in Hex. discriminate.
  - destruct (split_ws text) as [|p ps] eqn:Es.
    { pose proof (proj1 Hblank eq_refl). discriminate. }
    destruct (existsb (c_islower U) text) eqn:Ex.
    + split; [discriminate|]. intros [_ Hall].
      apply (proj2 Hlow) in Hall. discriminate.
    + split; [|reflexivity]. intros _.
      split; [exact (proj1 Hsome eq_refl)|exact (proj1 Hlow eq_refl)].
Qed.

Lemma combined_results_own text results :
  analyzer_analyze E text = Ok results ->
  combined_results E text = Ok (results ++ own_candidates E text).
Proof.
  intros H. unfold combined_results, own_candidates. now rewrite H.
Qed.

Lemma strong_person_passes text s e q :
  Qltb q (6 # 10) = false -> passes E text (mkResult "PERSON" s e q) = true.
Proof.
  intros H. unfold passes, weak_common_word. cbn [entity_type mkResult score].
  change (("PERSON" =? "DATE_TIME")%string) with false.
  change (("PERSON" =? "PNR")%string) with false.
  change (("PERSON" =? "Flight Number")%string) with false.
  change (("PERSON" =? "Frequent Flyer")%string) with false.
  change (("PERSON" =? "PERSON")%string) with true.
  cbv iota. now rewrite H, andb_false_r.
Qed.

Lemma own_candidates_pass text r :
  In r (own_candidates E text) -> passes E text r = true.
Proof.
  unfold own_candidates. intros H.
  repeat (apply in_app_or in H; destruct H as [H|H]).
  - destruct (proj1 (in_map_iff _ _ r) H) as (p & <- & _). reflexivity.
  - destruct (proj1 (in_map_iff _ _ r) H) as (p & <- & _).
    now apply strong_person_passes.
  - destruct (proj1 (in_map_iff _ _ r) H) as (p & <- & Hp).
    apply strong_person_passes.
    destruct (detect_names_inv _ _ _ Hp) as (m & _ & [[-> _]|[-> _]]);
      reflexivity.
  - destruct (proj1 (in_map_iff _ _ r) H) as (p & <- & _). reflexivity.
Qed.

(** X11. Whenever the analyzer returns, every candidate collected outside
    it (phone numbers, Chinese names from HanLP and from the pattern,
    romanized names, 13-digit ticket numbers) reaches the anonymizer: the
    filtering loop drops none of them, whatever the text. *)
Theorem own_candidates_reach_anonymizer (text : str)
    (results : list RecognizerResult) :
  analyzer_analyze E text = Ok results ->
  exists final,
    final_results E text = Ok final /\
    incl (own_candidates E text) final.
Proof.
  intros H. exists (filter (passes E text) (results ++ own_candidates E text)).
  split.
  - rewrite final_results_eq, (combined_results_own _ H). reflexivity.
  - intros r Hr. apply filter_In. split.
    + apply in_or_app. now right.
    + now apply own_candidates_pass.
Qed.

Lemma hanlp_or_custom text h :
  In h (filter (fun e => negb (existsb (fun c => re_az c || re_AZ c) (cn_text e)))
               (_get_hanlp_entities E text)
        ++ _get_custom_chinese_names text) ->
  In h (_get_hanlp_entities E text) \/ In h (_get_custom_chinese_names text).
Proof.
  intros H. apply in_app_or in H. destruct H as [H|H]; [left|now right].
  apply filter_In in H. tauto.
Qed.

(** X12. Bounds of the final spans.  When the spans the analyzer and HanLP
    report are not empty and lie within the text, so does every span handed
    to the anonymizer: the module's own recognizers only produce such
    spans and the loop only selects. *)
Theorem final_results_in_bounds (text : str)
    (results final : list RecognizerResult) :
  analyzer_analyze E text = Ok results ->
  (forall r, In r results -> in_bounds text r) ->
  (forall h, In h (_get_hanlp_entities E text) ->
             cn_start h < cn_end h /\ cn_end h <= List.length text) ->
  final_results E text = Ok final ->
  forall r, In r final -> in_bounds text r.
Proof.
  intros Han Hres Hhan Hfin r Hr.
  rewrite final_results_eq, (combined_results_own _ Han) in Hfin.
  injection Hfin as <-. apply filter_In in Hr. destruct Hr as [Hr _].
  apply in_app_or in Hr. destruct Hr as [Hr|Hr]; [now apply Hres|].
  unfold own_candidates in Hr.
  repeat (apply in_app_or in Hr; destruct Hr as [Hr|Hr]).
  - destruct (proj1 (in_map_iff _ _ r) Hr) as (p & <- & Hp).
    destruct (analyze_inv _ _ Hp) as (config & m & Hc & Hm & _ & ->).
    pose proof phone_patterns_shape as Hshape.
    rewrite Forall_forall in Hshape. destruct (Hshape _ Hc) as [_ Hmin].
    destruct (finditer_match_of _ _ _ Hm) as (Hlen & Hend & _).
    unfold in_bounds. simpl. lia.
  - destruct (proj1 (in_map_iff _ _ r) Hr) as (h & <- & Hh).
    apply hanlp_or_custom in Hh. destruct Hh as [Hh|Hh].
    + exact (Hhan h Hh).
    + unfold _get_custom_chinese_names in Hh.
      destruct (proj1 (in_map_iff _ _ h) Hh) as (m & <- & Hm).
      destruct (finditer_match_of _ _ _ Hm) as (Hlen & Hend & _).
      assert (Hmin : min_len _chinese_name_pattern = 2)
        by (vm_compute; reflexivity).
      rewrite Hmin in Hlen. unfold in_bounds. simpl. lia.
  - destruct (proj1 (in_map_iff _ _ r) Hr) as (h & <- & Hh).
    destruct (detect_names_inv _ _ _ Hh) as (m & Hm & Hcase).
    destruct (finditer_match_of _ _ _ Hm) as (Hlen & Hend & _).
    change (min_len (two_capitalized_words U)) with 5 in Hlen.
    unfold in_bounds. destruct Hcase as [[-> _]|[-> _]]; simpl; lia.
  - destruct (proj1 (in_map_iff _ _ r) Hr) as (m & <- & Hm).
    destruct (finditer_match_of _ _ _ Hm) as (Hlen & Hend & _).
    change (min_len (sticky_ticket_pattern E)) with 13 in Hlen.
    unfold in_bounds. simpl. lia.
Qed.

Lemma final_results_raises text e :
  final_results E text = Raise e <-> analyzer_analyze E text = Raise e.
Proof.
  rewrite final_results_eq. unfold combined_results.
  destruct (analyzer_analyze E text); simpl; split; congruence.
Qed.

Lemma redact_eq text :
  redact E text =
  match final_results E text with
  | Raise e => Raise e
  | Ok final =>
      Ok (match anonymize E text final operators with
          | Ok out => Normalizer._normalize_output out
          | Raise _ => text
          end)
  end.
Proof.
  unfold redact. destruct (final_results E text) as [final|e]; [|reflexivity].
  cbn [bind]. fold operators.
  destruct (anonymize E text final operators); reflexivity.
Qed.

(** X13. [redact] raises exactly when the analyzer call raises, and then
    the same exception.  Otherwise it returns the normalized output of the
    anonymizer, or the text it was given when the anonymizer raises. *)
Theorem redact_outcome (text : str) :
  (forall e, redact E text = Raise e <-> analyzer_analyze E text = Raise e) /\
  (forall out, redact E text = Ok out ->
     exists final,
       final_results E text = Ok final /\
       out = match anonymize E text final operators with
             | Ok anonymized => Normalizer._normalize_output anonymized
             | Raise _ => text
             end).
Proof.
  split.
  - intros e. rewrite <- final_results_raises, redact_eq.
    destruct (final_results E text); split; congruence.
  - intros out. rewrite redact_eq.
    destruct (final_results E text) as [final|e]; [|discriminate].
    intros [= <-]. now exists final.
Qed.

(** X14. Whatever [redact] returns is either tidy (tags set off by single
    spaces, no other white space, none at the ends) or exactly the text it
    was given. *)
Theorem redact_output_tidy_or_input (text out : str) :
  redact E text = Ok out -> tidy out = true \/ out = text.
Proof.
  rewrite redact_eq.
  destruct (final_results E text) as [final|e]; [|discriminate].
  intros [= <-].
  destruct (anonymize E text final operators); [left|now right].
  apply NormalizerMore.normalize_output_tidy.
Qed.

(** X15. A HanLP model that raises at call time changes nothing: [redact]
    answers as if no model were loaded. *)
Theorem hanlp_failure_is_silent (text : str)
    (ner : str -> result (list hanlp_item)) (e : exn) :
  hanlp_ner E = Some ner -> ner text = Raise e ->
  redact E text = redact (without_hanlp E) text.
Proof.
  intros Hner Hraise.
  assert (Hh : _get_hanlp_entities E text = []).
  { unfold _get_hanlp_entities. now rewrite Hner, Hraise. }
  assert (Hc : combined_results E text = combined_results (without_hanlp E) text).
  { unfold combined_results. rewrite Hh. reflexivity. }
  unfold redact, final_results. rewrite Hc. reflexivity.
Qed.

End WithEnv.

End RedactMore.

(** ** The 13-digit ticket candidates *)

Module TicketMore.
Import AirlinePIIRedactor Spec Spec2 MatcherFacts.

Lemma prev_of_cons prev c pre : prev_of (Some c) pre = prev_of prev (c :: pre).
Proof.
  unfold prev_of. simpl rev. destruct (rev pre) as [|x t]; reflexivity.
Qed.

(** Each match of a scan is the match found at its start, with the
    character before it as the previous character. *)
Lemma finditer_from_here r (s : str) : forall pos prev skip m,
  In m (finditer_from r pos prev skip s) ->
  exists pre rest,
    s = pre ++ rest /\ mt_start m = pos + List.length pre /\
    match_here r (mt_start m) (prev_of prev pre) rest = Some m.
Proof.
  induction s as [|c s' IH]; intros pos prev skip m H; [destruct H|].
  assert (Hlater : forall skip',
             In m (finditer_from r (S pos) (Some c) skip' s') ->
             exists pre rest,
               c :: s' = pre ++ rest /\ mt_start m = pos + List.length pre /\
               match_here r (mt_start m) (prev_of prev pre) rest = Some m).
  { intros skip' Hin. destruct (IH _ _ _ _ Hin) as (pre & rest & E & Hs & Hm).
    exists (c :: pre), rest. rewrite <- prev_of_cons. simpl. rewrite E.
    repeat split; auto. lia. }
  simpl in H. destruct skip as [|n]; [|eauto].
  destruct (match_here r pos prev (c :: s')) as [m0|] eqn:Hm; [|eauto].
  destruct H as [<-|H]; [|eauto].
  destruct (match_here_span _ _ _ _ Hm) as (Hs & _).
  exists [], (c :: s'). simpl. rewrite Hs. repeat split; auto.
Qed.

(** A repetition with an upper bound reads no more than the bound. *)
Lemma rep_match_bounded p (s : str) : forall lo hi st k res,
  m_rest st = s ->
  rep_match p lo (Some hi) st s k = Some res ->
  exists st' consumed,
    k st' = Some res /\ s = consumed ++ m_rest st' /\
    m_pos st' = m_pos st + List.length consumed /\
    forallb p consumed = true /\
    lo <= List.length consumed /\ List.length consumed <= hi.
Proof.
  induction s as [|c s' IH]; intros lo hi st k res Hrest H.
  - simpl in H. destruct lo; [|discriminate].
    exists st, []. rewrite Hrest. simpl. repeat split; auto; lia.
  - simpl in H.
    assert (Hstop : match lo with 0 => k st | S _ => None end = Some res ->
                    exists st' consumed,
                      k st' = Some res /\ c :: s' = consumed ++ m_rest st' /\
                      m_pos st' = m_pos st + List.length consumed /\
                      forallb p consumed = true /\
                      lo <= List.length consumed /\ List.length consumed <= hi).
    { destruct lo; [|discriminate]. intros Hk.
      exists st, []. rewrite Hrest. simpl. repeat split; auto; lia. }
    destruct (p c && match hi with 0 => false | S _ => true end) eqn:Hc; [|auto].
    apply andb_true_iff in Hc. destruct Hc as [Hpc Hhi].
    destruct hi as [|hi']; [discriminate|]. simpl in H.
    destruct (rep_match p (pred lo) (Some hi') (advance st c s') s' k)
      as [r|] eqn:Hr; [|auto].
    injection H as <-.
    destruct (IH _ _ (advance st c s') _ _ eq_refl Hr)
      as (st' & cs & Hk & E & Hp & F & L1 & L2).
    exists st', (c :: cs). simpl in *. rewrite Hpc, F, <- E.
    repeat split; auto; lia.
Qed.

Section WithEnv.
Variable E : Env.

Lemma sticky_match_here pos prev rest m :
  match_here (sticky_ticket_pattern E) pos prev rest = Some m ->
  opt_test (re_d E) prev = false /\
  exists digits post,
    rest = digits ++ post /\ List.length digits = 13 /\
    forallb (re_d E) digits = true /\
    opt_test (re_d E) (hd_error post) = false /\
    mt_start m = pos /\ mt_end m = pos + 13.
Proof.
  unfold match_here, sticky_ticket_pattern, times. cbn [seqs rmatch m_prev m_rest].
  destruct (opt_test (re_d E) prev); [discriminate|].
  destruct (rep_match _ _ _ _ _ _) as [st|] eqn:H; [|discriminate].
  intros [= <-]. split; [reflexivity|].
  destruct (@rep_match_bounded _ _ _ _ _ _ _ eq_refl H)
    as (st' & cs & Hk & Er & Hp & F & L1 & L2).
  cbn [m_rest m_pos] in *.
  destruct (opt_test (re_d E) (hd_error (m_rest st'))) eqn:Hn; [discriminate|].
  injection Hk as <-.
  exists cs, (m_rest st'). cbn [mt_start mt_end].
  repeat split; auto; lia.
Qed.

(** X16. A 13-digit ticket candidate is a whole run of digits: exactly 13
    decimal digits of the text, with no digit directly before or after
    them.  Longer and shorter digit runs give no candidate. *)
Theorem sticky_ticket_is_whole_run (text : str) (r : RecognizerResult) :
  In r (sticky_tickets E text) ->
  entity_type r = "Ticket Number"%string /\
  exists pre digits post,
    text = pre ++ digits ++ post /\
    start r = List.length pre /\ end_ r = List.length pre + 13 /\
    List.length digits = 13 /\ forallb (re_d E) digits = true /\
    opt_test (re_d E) (prev_of None pre) = false /\
    opt_test (re_d E) (hd_error post) = false.
Proof.
  unfold sticky_tickets. intros H.
  destruct (proj1 (in_map_iff _ _ r) H) as (m & <- & Hm).
  split; [reflexivity|].
  destruct (@finditer_from_here _ _ _ _ _ _ Hm) as (pre & rest & Et & Hs & Hh).
  destruct (@sticky_match_here _ _ _ _ Hh)
    as (Hprev & digits & post & Er & Hlen & Hd & Hnext & _ & He).
  exists pre, digits, post. cbn [start end_ mkResult]. simpl in Hs.
  rewrite Et, Er. repeat split; auto; lia.
Qed.

End WithEnv.

End TicketMore.

(** ** The classifier as years pass *)

Module DobMore.
Import AirlinePIIRedactor Spec Spec2.


End DobMore.

(** ** Instances of the further properties *)

Module MoreInstances.
Import InternationalPhoneRecognizer SurnameManager AirlinePIIRedactor.
Import Spec Spec2.

Lemma phone_hit_bounds_witness :
  In cn_mobile_hit (analyze (codes "Mobile 13800138000 is valid")) /\
  (ph_start cn_mobile_hit + 8 <= ph_end cn_mobile_hit /\
   ph_end cn_mobile_hit <= List.length (codes "Mobile 13800138000 is valid") /\
   ph_text cn_mobile_hit
     = slice (codes "Mobile 13800138000 is valid")
             (ph_start cn_mobile_hit) (ph_end cn_mobile_hit) /\
   List.length (ph_text cn_mobile_hit) = ph_end cn_mobile_hit - ph_start cn_mobile_hit).
Proof.
  assert (H : In cn_mobile_hit (analyze (codes "Mobile 13800138000 is valid")))
    by (vm_compute; left; reflexivity).
  split; [exact H|exact (@RecognizerMore.phone_hit_bounds _ _ H)].
Defined.

Lemma phone_hit_digits_witness :
  In cn_mobile_hit (analyze (codes "Mobile 13800138000 is valid")) /\
  (forallb phone_char (ph_text cn_mobile_hit) = true /\
   forallb re_09 (clean (ph_text cn_mobile_hit)) = true).
Proof.
  assert (H : In cn_mobile_hit (analyze (codes "Mobile 13800138000 is valid")))
    by (vm_compute; left; reflexivity).
  split; [exact H|exact (@RecognizerMore.phone_hit_digits _ _ H)].
Defined.

Lemma detect_names_hit_shape_witness :
  In ouyang_hit_85 (detect_names ascii_tables (codes "Ouyang Ming")) /\
  nm_start ouyang_hit_85 + 5 <= nm_end ouyang_hit_85.
Proof.
  assert (H : In ouyang_hit_85 (detect_names ascii_tables (codes "Ouyang Ming")))
    by (vm_compute; left; reflexivity).
  split; [exact H|].
  exact (proj1 (proj2 (proj2 (@RecognizerMore.detect_names_hit_shape _ _ _ H)))).
Defined.

Lemma detect_names_compound_is_duplicate_witness :
  In ouyang_hit_90 (detect_names ascii_tables (codes "Ouyang Ming")) /\
  In ouyang_hit_85 (detect_names ascii_tables (codes "Ouyang Ming")).
Proof.
  assert (H : In ouyang_hit_90 (detect_names ascii_tables (codes "Ouyang Ming")))
    by (vm_compute; right; left; reflexivity).
  split; [exact H|].
  exact (@RecognizerMore.detect_names_compound_is_duplicate _ _ _ H eq_refl).
Defined.

Lemma custom_chinese_names_shape_witness :
  In li_ming_hit (_get_custom_chinese_names li_ming) /\
  forallb cjk (cn_text li_ming_hit) = true.
Proof.
  assert (H : In li_ming_hit (_get_custom_chinese_names li_ming))
    by (vm_compute; left; reflexivity).
  split; [exact H|].
  apply (proj2 (RecognizerMore.custom_chinese_names_shape li_ming) _ H).
Defined.

Lemma is_overlap_shares_position_witness :
  is_overlap ouyang_85 [ouyang_90] = true /\
  exists ex, In ex [ouyang_90] /\ share_position ouyang_85 ex.
Proof.
  assert (H : is_overlap ouyang_85 [ouyang_90] = true) by reflexivity.
  split; [exact H|].
  exact (proj1 (@RedactMore.is_overlap_shares_position _ _) H).
Defined.

Lemma is_valid_flight_number_spec_witness :
  is_valid_flight_number ascii_env (codes "MU567") = true /\
  is_valid_flight_number ascii_env (codes "  ") <> true.
Proof.
  split.
  - apply (proj2 (RedactMore.is_valid_flight_number_spec ascii_env (codes "MU567"))).
    split.
    + exists (code "M"). split; [left|]; reflexivity.
    + intros c Hc. simpl in Hc.
      repeat (destruct Hc as [<-|Hc]; [reflexivity|]). destruct Hc.
  - intros H.
    apply (proj1 (RedactMore.is_valid_flight_number_spec ascii_env (codes "  "))) in H.
    destruct H as [(c & Hc & Hs) _]. simpl in Hc.
    destruct Hc as [<-|[<-|[]]]; discriminate Hs.
Defined.

Lemma own_candidates_reach_anonymizer_witness :
  analyzer_analyze ascii_env (codes "Ouyang Ming") = Ok [] /\
  exists final,
    final_results ascii_env (codes "Ouyang Ming") = Ok final /\
    incl (own_candidates ascii_env (codes "Ouyang Ming")) final.
Proof.
  split; [reflexivity|].
  exact (@RedactMore.own_candidates_reach_anonymizer ascii_env
           (codes "Ouyang Ming") [] eq_refl).
Defined.

Lemma final_results_in_bounds_witness :
  final_results ascii_env (codes "Ouyang Ming") = Ok [ouyang_85; ouyang_90] /\
  in_bounds (codes "Ouyang Ming") ouyang_85.
Proof.
  assert (H : final_results ascii_env (codes "Ouyang Ming")
              = Ok [ouyang_85; ouyang_90]) by (vm_compute; reflexivity).
  split; [exact H|].
  apply (@RedactMore.final_results_in_bounds ascii_env (codes "Ouyang Ming")
           [] [ouyang_85; ouyang_90] eq_refl).
  - intros r [].
  - intros h [].
  - exact H.
  - left. reflexivity.
Defined.

Lemma redact_outcome_witness :
  analyzer_analyze failing_analyzer_env (codes "My PNR is X9Y8Z7.") = Raise ValueError /\
  redact failing_analyzer_env (codes "My PNR is X9Y8Z7.") = Raise ValueError.
Proof.
  split; [reflexivity|].
  apply (proj2 (proj1 (RedactMore.redact_outcome failing_analyzer_env
                         (codes "My PNR is X9Y8Z7.")) ValueError)).
  reflexivity.
Defined.

Lemma redact_output_tidy_or_input_witness :
  redact ascii_env (codes "Call  me") = Ok (codes "Call me") /\
  (tidy (codes "Call me") = true \/ codes "Call me" = codes "Call  me").
Proof.
  assert (H : redact ascii_env (codes "Call  me") = Ok (codes "Call me"))
    by (vm_compute; reflexivity).
  split; [exact H|exact (@RedactMore.redact_output_tidy_or_input _ _ _ H)].
Defined.

Lemma hanlp_failure_is_silent_witness :
  redact failing_hanlp_env (codes "Ouyang Ming")
  = redact (without_hanlp failing_hanlp_env) (codes "Ouyang Ming").
Proof.
  exact (@RedactMore.hanlp_failure_is_silent failing_hanlp_env (codes "Ouyang Ming")
           (fun _ => Raise (OtherException "RuntimeError"))
           (OtherException "RuntimeError") eq_refl eq_refl).
Defined.

Lemma sticky_ticket_is_whole_run_witness :
  In ticket_candidate (sticky_tickets ascii_env ticket_text) /\
  exists pre digits post,
    ticket_text = pre ++ digits ++ post /\
    start ticket_candidate = List.length pre /\
    end_ ticket_candidate = List.length pre + 13 /\
    List.length digits = 13 /\ forallb (re_d ascii_env) digits = true /\
    opt_test (re_d ascii_env) (prev_of None pre) = false /\
    opt_test (re_d ascii_env) (hd_error post) = false.
Proof.
  assert (H : In ticket_candidate (sticky_tickets ascii_env ticket_text))
    by (vm_compute; left; reflexivity).
  split; [exact H|].
  exact (proj2 (@TicketMore.sticky_ticket_is_whole_run _ _ _ H)).
Defined.


End MoreInstances.
